(** * foo.cpp: the sum-of-squares line filter of "Piping to External Programs"

    The tutorial [18C_Efficiency_In_Spark] writes a small C++ program,
    [foo.cpp], compiles it with [g++] and pipes the lines of [numbers.txt]
    through it.  This development embeds that program:

    - [Binary64]: the [double] type and its arithmetic (IEEE 754 binary64,
      round to nearest even), on the Standard Library's [spec_float];
    - [Strtod], [Printf]: the decimal conversions the stream operators rely
      on ([strtod] and [printf("%.6g")]);
    - [Std]: the part of <iostream>/<sstream>/<string>/<numeric> the program
      calls ([getline], [operator>>] on [double], [operator<<], [accumulate]),
      with the stream state bits written out;
    - [Foo]: [sum_squares] and [main], loop for loop;
    - [Text], [Literal], [Spec]: lines, tokens, decimal literals and the
      other words the properties are stated with;
    - [Tutorial]: the input and the output that the tutorial shows;
    - [Py]: the Python helpers of the same tutorial ([tokenize],
      [tokenize_count], [weight_first], [weight_last], [prepare]), on
      strings of code points below 256.

    Text is a list of bytes ([list ascii]).  The properties come last,
    after the lemmas on the library and on the loops. *)

From Stdlib Require Import Ascii String.
From Stdlib Require Import ZArith List Bool Lia Arith.
From Stdlib Require Import SpecFloat.
Import ListNotations.

#[local] Open Scope char_scope.
#[local] Open Scope list_scope.

(** Bytes of a string literal. *)
Definition bytes (s : string) : list ascii := list_ascii_of_string s.

(* ===================================================================== *)
(** * [double] *)

Module Binary64.

Definition prec : Z := 53.
Definition emax : Z := 1024.

Definition double : Type := spec_float.

(** The literal [0.0]. *)
Definition zero : double := S754_zero false.

Definition add (x y : double) : double := SFadd prec emax x y.
Definition mul (x y : double) : double := SFmul prec emax x y.

Definition is_infinity (x : double) : bool :=
  match x with S754_infinity _ => true | _ => false end.

(** [numeric_limits<double>::max()], with the sign asked for. *)
Definition max_value (neg : bool) : double :=
  S754_finite neg (2 ^ 53 - 1) (emax - prec).

(** The double nearest to the non-negative rational [n / d] (ties to
    even), signed [neg]; [d] is positive.  The quotient is taken with the
    division core of the float specification, so that the remainder
    decides the rounding. *)
Definition of_ratio (neg : bool) (n d : Z) : double :=
  match n with
  | Z0 => S754_zero neg
  | _ =>
    let '(q, e, l) := SFdiv_core_binary prec emax n 0 d 0 in
    binary_round_aux prec emax neg q e l
  end.

(** The double nearest to [m * 10 ^ e10], for [m >= 0]. *)
Definition of_decimal (neg : bool) (m e10 : Z) : double :=
  if (0 <=? e10)%Z then of_ratio neg (m * 10 ^ e10) 1
  else of_ratio neg m (10 ^ (- e10)).

(** A finite double as an exact fraction: numerator and denominator. *)
Definition to_ratio (m : positive) (e : Z) : Z * Z :=
  if (0 <=? e)%Z then (Zpos m * 2 ^ e, 1)%Z else (Zpos m, 2 ^ (- e))%Z.

End Binary64.

(* ===================================================================== *)
(** * Characters *)

Module Ctype.

(** [isspace] in the "C" locale: space, \t, \n, \v, \f, \r. *)
Definition isspace (c : ascii) : bool :=
  let n := nat_of_ascii c in
  (n =? 32)%nat || ((9 <=? n)%nat && (n <=? 13)%nat).

Definition isdigit (c : ascii) : bool :=
  let n := nat_of_ascii c in (48 <=? n)%nat && (n <=? 57)%nat.

Definition digit_value (c : ascii) : Z := Z.of_nat (nat_of_ascii c) - 48.

Definition digit_char (d : Z) : ascii := ascii_of_nat (Z.to_nat (d + 48)).

Definition is_sign (c : ascii) : bool := Ascii.eqb c "+" || Ascii.eqb c "-".

Definition is_exp (c : ascii) : bool := Ascii.eqb c "e" || Ascii.eqb c "E".

Definition newline : ascii := "010".

(** Longest prefix of digits, and what follows it. *)
Fixpoint span_digits (cs : list ascii) : list ascii * list ascii :=
  match cs with
  | c :: cs' =>
    if isdigit c then let '(ds, r) := span_digits cs' in (c :: ds, r)
    else ([], cs)
  | [] => ([], [])
  end.

(** Value of a digit string, most significant digit first. *)
Definition digits_value (ds : list ascii) : Z :=
  fold_left (fun acc c => (10 * acc + digit_value c)%Z) ds 0%Z.

(** An optional sign: whether it is a minus, and what follows it. *)
Definition take_sign (cs : list ascii) : bool * list ascii :=
  match cs with
  | c :: cs' => if is_sign c then (Ascii.eqb c "-", cs') else (false, cs)
  | [] => (false, [])
  end.

End Ctype.

(* ===================================================================== *)
(** * [strtod] *)

Module Strtod.
Import Ctype.

(** A point and the digits after it, when there is a point; and what
    follows. *)
Definition take_fraction (cs : list ascii) : list ascii * list ascii :=
  match cs with
  | "." :: r => span_digits r
  | _ => ([], cs)
  end.

(** The exponent that ends a literal: 0 when nothing is left, the value of
    [e [sign] digits] when that is all that is left, [None] otherwise. *)
Definition take_exponent (cs : list ascii) : option Z :=
  match cs with
  | [] => Some 0%Z
  | c :: cs1 =>
    if is_exp c then
      let '(eneg, cs2) := take_sign cs1 in
      let '(ed, cs3) := span_digits cs2 in
      match ed, cs3 with
      | _ :: _, [] =>
        let e := digits_value ed in Some (if eneg then (- e)%Z else e)
      | _, _ => None
      end
    else None
  end.

(** [strtod] on a field of the scanner below, which holds nothing but
    digits, signs, points and exponent marks: [Some x] when the field, from
    its first to its last byte, is a decimal floating-point literal
    ([sign] digits [. digits] [e [sign] digits], with at least one digit in
    the mantissa), [None] when the conversion would stop before the end (the
    caller treats that as a failure).  The value is correctly rounded; it
    is an infinity when the literal is out of range. *)
Definition strtod_all (s : list ascii) : option Binary64.double :=
  let '(neg, s1) := take_sign s in
  let '(ip, s2) := span_digits s1 in
  let '(fp, s3) := take_fraction s2 in
  match ip ++ fp with
  | [] => None
  | _ =>
    match take_exponent s3 with
    | Some e =>
      Some (Binary64.of_decimal neg (digits_value (ip ++ fp))
              (e - Z.of_nat (length fp)))
    | None => None
    end
  end.

End Strtod.

(* ===================================================================== *)
(** * Decimal literals, part by part *)

Module Literal.
Import Ctype.

Definition all_digits (ds : list ascii) : Prop :=
  Forall (fun c => isdigit c = true) ds.

(** No sign, or one. *)
Definition sign_ok (sg : list ascii) : Prop :=
  match sg with
  | [] => True
  | [c] => is_sign c = true
  | _ => False
  end.

Definition is_minus (sg : list ascii) : bool :=
  match sg with
  | c :: _ => Ascii.eqb c "-"
  | [] => false
  end.

Definition exponent_part : Type := option (ascii * list ascii * list ascii).

Record literal : Type := mk_literal {
  sign : list ascii;
  int_part : list ascii;
  point : list ascii;
  frac_part : list ascii;
  exponent : exponent_part
}.

Definition exponent_ok (ex : exponent_part) : Prop :=
  match ex with
  | None => True
  | Some (e, esg, ed) =>
    is_exp e = true /\ sign_ok esg /\ all_digits ed /\ ed <> []
  end.

Definition well_formed (l : literal) : Prop :=
  sign_ok (sign l) /\
  all_digits (int_part l) /\
  all_digits (frac_part l) /\
  (point l = ["."] \/ (point l = [] /\ frac_part l = [])) /\
  int_part l ++ frac_part l <> [] /\
  exponent_ok (exponent l).

Definition render_exponent (ex : exponent_part) : list ascii :=
  match ex with
  | None => []
  | Some (e, esg, ed) => e :: esg ++ ed
  end.

Definition render (l : literal) : list ascii :=
  sign l ++ int_part l ++ point l ++ frac_part l ++ render_exponent (exponent l).

Definition exponent_value (ex : exponent_part) : Z :=
  match ex with
  | None => 0%Z
  | Some (_, esg, ed) =>
    if is_minus esg then (- digits_value ed)%Z else digits_value ed
  end.

Definition value (l : literal) : Binary64.double :=
  Binary64.of_decimal (is_minus (sign l))
    (digits_value (int_part l ++ frac_part l))
    (exponent_value (exponent l) - Z.of_nat (length (frac_part l))).

(** What a run of digits can stop on. *)
Definition no_digit_first (r : list ascii) : Prop :=
  match r with
  | [] => True
  | c :: _ => isdigit c = false
  end.

(** The exponent as the scanner writes it in its field. *)
Definition canonical (ex : exponent_part) : exponent_part :=
  match ex with
  | None => None
  | Some (_, esg, ed) => Some ("e", esg, ed)
  end.

End Literal.

(* ===================================================================== *)
(** * [printf("%.6g")] *)

Module Printf.
Import Ctype.

(** Quotient of [n / d] rounded to the nearest integer, ties to even. *)
Definition div_nearest_even (n d : Z) : Z :=
  let q := (n / d)%Z in
  let r := (n mod d)%Z in
  match (2 * r ?= d)%Z with
  | Lt => q
  | Gt => (q + 1)%Z
  | Eq => if Z.even q then q else (q + 1)%Z
  end.

(** Number of decimal digits of a positive integer, less one. *)
Fixpoint log10_floor (fuel : nat) (n : Z) : Z :=
  match fuel with
  | O => 0
  | S fuel' => if (n <? 10)%Z then 0%Z else (1 + log10_floor fuel' (n / 10))%Z
  end.

(** For [0 < n < d]: the least [k >= 1] with [n * 10 ^ k >= d]. *)
Fixpoint scale_up (fuel : nat) (n d : Z) : Z :=
  match fuel with
  | O => 1
  | S fuel' =>
    if (d <=? 10 * n)%Z then 1%Z else (1 + scale_up fuel' (10 * n) d)%Z
  end.

(** The decimal exponent [X] of [n / d > 0]: [10^X <= n/d < 10^(X+1)]. *)
Definition exponent10 (n d : Z) : Z :=
  if (d <=? n)%Z then log10_floor (S (Z.to_nat (Z.log2 n))) (n / d)
  else (- scale_up (S (Z.to_nat (Z.log2 d))) n d)%Z.

(** [n / d * 10 ^ k], rounded to an integer. *)
Definition scaled (n d k : Z) : Z :=
  if (0 <=? k)%Z then div_nearest_even (n * 10 ^ k) d
  else div_nearest_even n (d * 10 ^ (- k)).

(** The [len] low decimal digits of [n], most significant first. *)
Fixpoint digits_of (len : nat) (n : Z) : list ascii :=
  match len with
  | O => []
  | S len' => digits_of len' (n / 10) ++ [digit_char (n mod 10)]
  end.

Fixpoint strip_zeros_rev (rev_ds : list ascii) : list ascii :=
  match rev_ds with
  | c :: r => if Ascii.eqb c "0" then strip_zeros_rev r else rev_ds
  | [] => []
  end.

(** Removes trailing zeros. *)
Definition strip_zeros (ds : list ascii) : list ascii :=
  rev (strip_zeros_rev (rev ds)).

(** A fraction part without its trailing zeros, with its point; nothing
    when no digit is left. *)
Definition fraction (ds : list ascii) : list ascii :=
  match strip_zeros ds with
  | [] => []
  | ds' => "." :: ds'
  end.

(** An exponent: sign and at least two digits. *)
Definition exponent_field (x : Z) : list ascii :=
  let a := Z.abs x in
  let len := S (Z.to_nat (log10_floor 4 a)) in
  "e" :: (if (x <? 0)%Z then "-" else "+")
      :: (if (a <? 10)%Z then "0" :: digits_of 1 a else digits_of len a).

Definition precision : Z := 6.

(** The digits and style of a positive [n / d] under [%.6g]. *)
Definition format_positive (n d : Z) : list ascii :=
  let x0 := exponent10 n d in
  let q0 := scaled n d (precision - 1 - x0) in
  let '(q, x) :=
    if (q0 =? 10 ^ precision)%Z then ((q0 / 10)%Z, (x0 + 1)%Z) else (q0, x0) in
  let ds := digits_of (Z.to_nat precision) q in
  if ((x <? -4) || (precision <=? x))%Z then
    firstn 1 ds ++ fraction (skipn 1 ds) ++ exponent_field x
  else if (0 <=? x)%Z then
    let k := S (Z.to_nat x) in
    firstn k ds ++ fraction (skipn k ds)
  else
    "0" :: fraction (repeat "0" (Z.to_nat (- x - 1)) ++ ds).

Definition sign_field (neg : bool) : list ascii := if neg then ["-"] else [].

(** What [printf("%.6g", x)] writes. *)
Definition format_g (x : Binary64.double) : list ascii :=
  match x with
  | S754_zero s => sign_field s ++ ["0"]
  | S754_infinity s => sign_field s ++ bytes "inf"
  | S754_nan => bytes "nan"
  | S754_finite s m e =>
    let '(n, d) := Binary64.to_ratio m e in
    sign_field s ++ format_positive n d
  end.

End Printf.

(* ===================================================================== *)
(** * The stream library *)

Module Std.
Import Ctype.

(** An input stream: the bytes not read yet and the state bits.  ([badbit]
    is never set on the streams of this program: no read error is
    modelled.) *)
Record istream : Type := mk_istream {
  rdbuf : list ascii;
  eofbit : bool;
  failbit : bool
}.

(** [istream::good()]. *)
Definition good (ins : istream) : bool := negb (eofbit ins) && negb (failbit ins).

(** [istream::fail()]. *)
Definition fail (ins : istream) : bool := failbit ins.

(** [istream::operator bool()], the test of [while (cin)]: [!fail()].  A
    stream with [eofbit] alone still converts to [true]. *)
Definition to_bool (ins : istream) : bool := negb (fail ins).

(** [operator!], the test of [if (!stream)]. *)
Definition not_ (ins : istream) : bool := fail ins.

Definition set_failbit (ins : istream) : istream :=
  mk_istream (rdbuf ins) (eofbit ins) true.

(** A stream over [s], not read yet: [cin] at start with [s] as the whole
    of standard input, and [stringstream stream(s)]. *)
Definition open (s : list ascii) : istream := mk_istream s false false.

(** ** [getline(ins, str)] *)

(** The bytes before the first newline, and what follows that newline;
    [None] for the rest when there is no newline. *)
Fixpoint until_newline (cs : list ascii) : list ascii * option (list ascii) :=
  match cs with
  | [] => ([], None)
  | c :: cs' =>
    if Ascii.eqb c newline then ([], Some cs')
    else let '(l, r) := until_newline cs' in (c :: l, r)
  end.

(** [getline] ([string.io]): "after constructing a sentry object, if the
    sentry converts to true, calls str.erase() and then extracts
    characters".  The sentry ([istream::sentry], with [noskipws]) is false
    on a stream that is not good: it sets [failbit], and [str] stays as it
    was.  Otherwise [str] is erased and receives the bytes up to the
    newline, which is extracted and dropped; at the end of the input
    [eofbit] is set, and [failbit] too when nothing was extracted. *)
Definition getline (ins : istream) (str : list ascii) : istream * list ascii :=
  if good ins then
    match until_newline (rdbuf ins) with
    | (l, Some rest) => (mk_istream rest false false, l)
    | (l, None) =>
      (mk_istream [] true (match l with [] => true | _ => false end), l)
    end
  else (set_failbit ins, str).

(** ** [ins >> u] for a [double] *)

Fixpoint skipws (cs : list ascii) : list ascii :=
  match cs with
  | c :: cs' => if isspace c then skipws cs' else cs
  | [] => []
  end.

(** Leading zeros of the mantissa: they are read, and one ['0'] stands for
    all of them in the field. *)
Fixpoint skip_zeros (cs : list ascii) : list ascii :=
  match cs with
  | c :: cs' => if Ascii.eqb c "0" then skip_zeros cs' else cs
  | [] => []
  end.

(** The main loop of the field scanner, as GNU libstdc++ writes it (the
    tutorial compiles with [g++]), in the "C" locale: point ['.'], no
    grouping.  [found_mantissa], [found_dec] and [found_sci] are its three
    flags, [xtrc] the field so far; the result is the field and the unread
    bytes. *)
Fixpoint extract_float_loop (found_mantissa found_dec found_sci : bool)
    (xtrc cs : list ascii) : list ascii * list ascii :=
  match cs with
  | [] => (xtrc, [])
  | c :: cs' =>
    if isdigit c then
      extract_float_loop true found_dec found_sci (xtrc ++ [c]) cs'
    else if Ascii.eqb c "." && negb found_dec && negb found_sci then
      extract_float_loop found_mantissa true found_sci (xtrc ++ ["."]) cs'
    else if is_exp c && negb found_sci && found_mantissa then
      match cs' with
      | [] => (xtrc ++ ["e"], [])
      | c2 :: cs'' =>
        if is_sign c2 then
          extract_float_loop found_mantissa found_dec true
            (xtrc ++ ["e"; c2]) cs''
        else
          extract_float_loop found_mantissa found_dec true
            (xtrc ++ ["e"]) cs'
      end
    else (xtrc, cs)
  end.

(** [num_get::_M_extract_float]: an optional sign, the leading zeros, then
    the loop above. *)
Definition extract_float (cs : list ascii) : list ascii * list ascii :=
  let '(sign, cs1) :=
    match cs with
    | c :: cs' => if is_sign c then ([c], cs') else ([], cs)
    | [] => ([], [])
    end in
  let cs2 := skip_zeros cs1 in
  let zeros := negb (length cs2 =? length cs1)%nat in
  extract_float_loop zeros false false
    (sign ++ (if zeros then ["0"] else [])) cs2.

(** [__convert_to_v]: the field goes through [strtod]; a field that is not
    a number from end to end stores [0.0] and fails, a number out of range
    stores the largest double and fails. *)
Definition convert_to_v (xtrc : list ascii) : Binary64.double * bool :=
  match Strtod.strtod_all xtrc with
  | None => (Binary64.zero, true)
  | Some (S754_infinity s) => (Binary64.max_value s, true)
  | Some x => (x, false)
  end.

(** [ins >> u].  The sentry fails (setting [failbit], [u] untouched) on a
    stream that is not good, and, after skipping white space, at the end
    of the input (setting [eofbit] too).  Otherwise the field is scanned
    and converted into [u]; [eofbit] is set when the scan reached the end
    of the input, [failbit] when the conversion failed. *)
Definition extract_double (ins : istream) (u : Binary64.double)
    : istream * Binary64.double :=
  if good ins then
    match skipws (rdbuf ins) with
    | [] => (mk_istream [] true true, u)
    | cs =>
      let '(xtrc, rest) := extract_float cs in
      let '(v, err) := convert_to_v xtrc in
      (mk_istream rest (match rest with [] => true | _ => false end) err, v)
    end
  else (set_failbit ins, u).

(** ** [os << x << endl] *)

(** [cout << x] with the default format flags and precision: [%.6g]. *)
Definition put_double (os : list ascii) (x : Binary64.double) : list ascii :=
  os ++ Printf.format_g x.

(** [cout << endl]: a newline (and a flush). *)
Definition endl (os : list ascii) : list ascii := os ++ [newline].

(** ** [accumulate(first, last, init, op)] *)

Fixpoint accumulate {A B : Type} (v : list B) (init : A) (op : A -> B -> A) : A :=
  match v with
  | [] => init
  | x :: v' => accumulate v' (op init x) op
  end.

End Std.

(* ===================================================================== *)
(** * foo.cpp *)

Module Foo.
Import Ctype Std.

Definition double : Type := Binary64.double.

(** [double sum_squares(double x, double y) { return x + y*y; }] *)
Definition sum_squares (x y : double) : double :=
  Binary64.add x (Binary64.mul y y).

(** The value a [double u;] holds before anything is stored in it is not
    determined by the program: [junk k] stands for it at the [k]-th
    declaration met. *)
Definition indeterminate : Type := nat -> double.

Definition next {A : Type} (junk : nat -> A) : nat -> A := fun k => junk (S k).

(** The inner loop:
<<
    while(1) { double u; stream >> u; if(!stream) break; v.push_back(u); }
>>
    [None] when [fuel] iterations were not enough. *)
Fixpoint read_loop (fuel : nat) (junk : indeterminate) (stream : istream)
    (v : list double) : option (list double) :=
  match fuel with
  | O => None
  | S fuel' =>
    let u := junk O in
    let '(stream', u') := extract_double stream u in
    if not_ stream' then Some v
    else read_loop fuel' (next junk) stream' (v ++ [u'])
  end.

(** One more iteration than the line has bytes is always enough
    ([read_numbers_total] below). *)
Definition read_numbers (junk : indeterminate) (s : list ascii)
    : option (list double) :=
  read_loop (S (length s)) junk (open s) [].

(** The rest of the body of the outer loop, once [getline] has filled [s]:
<<
    stringstream stream(s); vector<double> v;
    while(1) ...
    if (v.size()) {
        double x = accumulate(v.begin(), v.end(), 0.0, sum_squares);
        cout << x << endl;
    }
>>
    The result is [cout] afterwards. *)
Definition process_line (junk : indeterminate) (s : list ascii)
    (cout : list ascii) : option (list ascii) :=
  match read_numbers junk s with
  | None => None
  | Some v =>
    match v with
    | [] => Some cout
    | _ =>
      let x := accumulate v Binary64.zero sum_squares in
      Some (endl (put_double cout x))
    end
  end.

(** The state of [main] between two iterations: [cin], [s] and [cout]. *)
Record state : Type := mk_state {
  cin : istream;
  s : list ascii;
  cout : list ascii
}.

(** The body of [while (cin) { getline(cin, s); ... }]. *)
Definition loop_body (junk : indeterminate) (st : state) : option state :=
  let '(cin', s') := getline (cin st) (s st) in
  match process_line junk s' (cout st) with
  | None => None
  | Some cout' => Some (mk_state cin' s' cout')
  end.

(** [while (cin) { ... }]; [junk i] holds the indeterminate values of the
    [i]-th iteration.  [None] when [fuel] iterations were not enough. *)
Fixpoint main_loop (fuel : nat) (junk : nat -> indeterminate) (st : state)
    : option state :=
  match fuel with
  | O => None
  | S fuel' =>
    if to_bool (cin st) then
      match loop_body (junk O) st with
      | None => None
      | Some st' => main_loop fuel' (next junk) st'
      end
    else Some st
  end.

(** [main], run on the standard input [stdin]: what it wrote to the
    standard output, and its exit status (control reaches the end of
    [main], which returns 0).  [string s;] starts empty.  Two iterations
    more than the input has bytes are always enough. *)
Definition main (junk : nat -> indeterminate) (stdin : list ascii)
    : option (list ascii * Z) :=
  match main_loop (length stdin + 2) junk (mk_state (open stdin) [] []) with
  | None => None
  | Some st => Some (cout st, 0%Z)
  end.

End Foo.

(* ===================================================================== *)
(** * Lines and tokens *)

Module Text.
Import Ctype.

(** The tokens of a line: its maximal runs of bytes that are not white
    space, in order. *)
Fixpoint words (cs : list ascii) : list (list ascii) :=
  match cs with
  | [] => []
  | c :: cs' =>
    if isspace c then words cs'
    else
      match cs' with
      | [] => [[c]]
      | d :: _ =>
        if isspace d then [c] :: words cs'
        else
          match words cs' with
          | w :: ws => (c :: w) :: ws
          | [] => [[c]]
          end
      end
  end.

(** No white space at all. *)
Definition solid (cs : list ascii) : Prop := Forall (fun c => isspace c = false) cs.

(** What follows a token: nothing, or white space first. *)
Definition token_end (rest : list ascii) : Prop :=
  match rest with
  | [] => True
  | c :: _ => isspace c = true
  end.

(** The stream made of the lines [ls], each ended by a newline. *)
Definition unlines (ls : list (list ascii)) : list ascii :=
  concat (map (fun l => l ++ [newline]) ls).

(** A line holds no newline. *)
Definition no_newline (l : list ascii) : bool :=
  forallb (fun c => negb (Ascii.eqb c newline)) l.

Definition is_line (l : list ascii) : Prop := no_newline l = true.

(** Text without newline. *)
Definition plain (cs : list ascii) : Prop := Forall (fun c => c <> newline) cs.

(** Number of lines written to an output: each one ends with a newline. *)
Definition count_lines (out : list ascii) : nat :=
  count_occ ascii_dec out newline.

End Text.

(* ===================================================================== *)
(** * The vocabulary of the specification *)

Module Spec.
Import Ctype Std Text.

(** A numeric token and its value: the token is, from its first to its last
    byte, a decimal literal, and its value is in the range of [double]. *)
Definition numeric_value (t : list ascii) : option Binary64.double :=
  match Strtod.strtod_all t with
  | Some x => if Binary64.is_infinity x then None else Some x
  | None => None
  end.

(** The field that the scanner makes of a literal: the leading zeros of the
    integer part become one, the exponent mark becomes ['e']. *)
Definition field (l : Literal.literal) : Literal.literal :=
  let ip := Literal.int_part l in
  let ip' := skip_zeros ip in
  Literal.mk_literal (Literal.sign l)
    (if (length ip' =? length ip)%nat then ip' else "0" :: ip')
    (Literal.point l) (Literal.frac_part l)
    (Literal.canonical (Literal.exponent l)).

(** A token that [stream >> u] reads as a whole: on a stream that holds the
    token alone, it succeeds and leaves nothing unread. *)
Definition parse_token (t : list ascii) : option Binary64.double :=
  let '(st, v) := extract_double (open t) Binary64.zero in
  if negb (fail st) && (length (rdbuf st) =? 0)%nat then Some v else None.

(** A token that does not start with a number: [stream >> u] fails on a
    stream that holds it alone. *)
Definition no_number (t : list ascii) : bool :=
  fail (fst (extract_double (open t) Binary64.zero)).

(** [combine(acc, v) = acc + v^2]. *)
Definition combine (acc v : Binary64.double) : Binary64.double :=
  Binary64.add acc (Binary64.mul v v).

(** The left fold seeded at zero. *)
Definition sum_of_squares (vs : list Binary64.double) : Binary64.double :=
  fold_left combine vs Binary64.zero.

(** Parsing as the specification words it: the line is split into tokens
    first, each token is parsed as a whole, and parsing stops at the first
    token that is not numeric. *)
Fixpoint numeric_prefix (ts : list (list ascii)) : list Binary64.double :=
  match ts with
  | [] => []
  | t :: ts' =>
    match numeric_value t with
    | Some v => v :: numeric_prefix ts'
    | None => []
    end
  end.

Definition tokenize_then_parse (line : list ascii) : list Binary64.double :=
  numeric_prefix (words line).

(** The output line that carries the value [x]. *)
Definition output_line (x : Binary64.double) : list ascii :=
  Printf.format_g x ++ [newline].

(** What one pass of the loop body writes when [getline] has delivered
    [line]. *)
Definition emitted (line : list ascii) : list ascii :=
  match Foo.process_line (fun _ => Binary64.zero) line [] with
  | Some out => out
  | None => []
  end.

(** The double that a decimal literal denotes. *)
Definition lit (s : string) : Binary64.double :=
  match Strtod.strtod_all (bytes s) with
  | Some x => x
  | None => Binary64.zero
  end.

(** Indeterminate values that all happen to be zero. *)
Definition zeros : nat -> Foo.indeterminate := fun _ _ => Binary64.zero.

(** What [main] writes on the input made of the newline-terminated lines
    [ls] followed by the unterminated piece [l], as the loop produces it:
    every line once, in order, and a last line without newline twice. *)
Definition written (ls : list (list ascii)) (l : list ascii) : list ascii :=
  concat (map emitted ls) ++
  match l with
  | [] => []
  | _ => emitted l ++ emitted l
  end.

(** The input lines that hold at least one parseable number. *)
Definition qualifying (ls : list (list ascii)) : list (list ascii) :=
  filter (fun l =>
            match Foo.read_numbers (fun _ => Binary64.zero) l with
            | Some (_ :: _) => true
            | _ => false
            end) ls.

End Spec.

(* ===================================================================== *)
(** * The run shown in the tutorial *)

Module Tutorial.

(** [!head numbers.txt], as the tutorial prints it. *)
Definition numbers_txt : list (list ascii) := map bytes [
  "5.270539741683482049e-01 9.538059079198231149e-01 9.705379757246932471e-01";
  "8.224342507879207620e-01 4.863559000065119653e-01 6.055084142317349594e-01";
  "3.776646942097252602e-01 6.458831090447878509e-01 3.890739818068755795e-01";
  "3.894152894179003788e-02 3.690381691456464663e-01 8.589506712912342579e-02";
  "7.596819591747848710e-01 5.785597615102290314e-01 7.884100040999678649e-01";
  "8.717886662425843314e-01 4.836717890004667009e-01 9.547083256957378250e-02";
  "7.107374952186653605e-01 5.218853770211685505e-01 9.323470966394742376e-01";
  "8.793413319051871513e-01 3.959469860304939415e-01 6.483846319494085408e-01";
  "9.579829009525054895e-01 2.739685046015039038e-01 8.817835757073387848e-01";
  "5.315242953832449713e-01 3.254503074377856908e-01 9.383707453566396683e-01"
]%string.

(** What [./foo < numbers.txt] prints there. *)
Definition printed : list (list ascii) := map bytes [
  "2.12948"; "1.27958"; "0.711174"; "0.145084"; "1.53344";
  "1.00307"; "1.64678"; "1.35042"; "1.77033"; "1.26898"
]%string.

End Tutorial.

(* ===================================================================== *)
(** * Lines and tokens, again *)

Module Layout.
Import Ctype Std Text.

(** Two pieces of text that [>>] cannot tell apart: nothing but white space
    is left in both, or, past the white space, both start with the same
    run of bytes and go on with the same tokens. *)
Definition same_ahead (cs1 cs2 : list ascii) : Prop :=
  (skipws cs1 = [] /\ skipws cs2 = []) \/
  exists t r1 r2,
    t <> [] /\ solid t /\ token_end r1 /\ token_end r2 /\
    skipws cs1 = t ++ r1 /\ skipws cs2 = t ++ r2 /\ words r1 = words r2.

(** The newline-terminated lines of an input, and the piece without newline
    that is left after the last of them. *)
Fixpoint lines_of (cs : list ascii) : list (list ascii) * list ascii :=
  match cs with
  | [] => ([], [])
  | c :: cs' =>
    let '(ls, l) := lines_of cs' in
    if Ascii.eqb c newline then ([] :: ls, l)
    else
      match ls with
      | [] => ([], c :: l)
      | l0 :: ls' => ((c :: l0) :: ls', l)
      end
  end.

End Layout.

(* ===================================================================== *)
(** * Signs *)

Module Sign.

(** A number, of sign [s] (set for minus): not a NaN. *)
Definition signed (s : bool) (x : Binary64.double) : Prop :=
  match x with
  | S754_zero s' => s' = s
  | S754_infinity s' => s' = s
  | S754_finite s' _ _ => s' = s
  | S754_nan => False
  end.

(** Zero or a finite number. *)
Definition finite (x : Binary64.double) : bool :=
  match x with
  | S754_zero _ => true
  | S754_finite _ _ _ => true
  | _ => false
  end.

(** Plus zero, a positive number or plus infinity. *)
Definition nonnegative (x : Binary64.double) : bool :=
  match x with
  | S754_zero false => true
  | S754_finite false _ _ => true
  | S754_infinity false => true
  | _ => false
  end.

End Sign.

(* ===================================================================== *)
(** * The Python helpers of the tutorial *)

Module Py.

(** A [str] whose code points are all below 256, one [ascii] for each.  The
    operations below stay within such strings. *)
Definition str : Type := list ascii.

(** [c.isspace()]: U+0009..000D, U+001C..0020, U+0085 and U+00A0. *)
Definition isspace (c : ascii) : bool :=
  let n := nat_of_ascii c in
  ((9 <=? n)%nat && (n <=? 13)%nat) || ((28 <=? n)%nat && (n <=? 32)%nat)
  || (n =? 133)%nat || (n =? 160)%nat.

(** [string.punctuation]. *)
Definition punctuation : str :=
  bytes "!" ++ ["034"] ++ bytes "#$%&'()*+,-./:;<=>?@[\]^_`{|}~".

Definition is_punctuation (c : ascii) : bool :=
  existsb (Ascii.eqb c) punctuation.

(** [line.translate(table)] for [table = dict.fromkeys(map(ord, keys))]:
    every key is mapped to [None], which deletes it. *)
Definition translate (keys : str) (line : str) : str :=
  filter (fun c => negb (existsb (Ascii.eqb c) keys)) line.

(** [c.lower()]: A..Z, and U+00C0..00DE but for the multiplication sign. *)
Definition lower_char (c : ascii) : ascii :=
  let n := nat_of_ascii c in
  if ((65 <=? n)%nat && (n <=? 90)%nat)
     || ((192 <=? n)%nat && (n <=? 222)%nat && negb (n =? 215)%nat)
  then ascii_of_nat (n + 32) else c.

Definition lower (s : str) : str := map lower_char s.

(** [c.isalpha()]: the letters below U+0100. *)
Definition isalpha_char (c : ascii) : bool :=
  let n := nat_of_ascii c in
  ((65 <=? n)%nat && (n <=? 90)%nat) || ((97 <=? n)%nat && (n <=? 122)%nat)
  || (n =? 170)%nat || (n =? 181)%nat || (n =? 186)%nat
  || ((192 <=? n)%nat && (n <=? 214)%nat)
  || ((216 <=? n)%nat && (n <=? 246)%nat)
  || ((248 <=? n)%nat && (n <=? 255)%nat).

(** [word.isalpha()]: at least one character, and letters only. *)
Definition isalpha (word : str) : bool :=
  match word with
  | [] => false
  | _ => forallb isalpha_char word
  end.

Fixpoint lstrip (s : str) : str :=
  match s with
  | c :: s' => if isspace c then lstrip s' else s
  | [] => []
  end.

(** [s.strip()]. *)
Definition strip (s : str) : str := rev (lstrip (rev (lstrip s))).

(** Splitting at runs of the characters that [sp] holds for; no piece is
    empty. *)
Fixpoint split_by (sp : ascii -> bool) (s : str) : list str :=
  match s with
  | [] => []
  | c :: s' =>
    if sp c then split_by sp s'
    else
      match s' with
      | [] => [[c]]
      | d :: _ =>
        if sp d then [c] :: split_by sp s'
        else
          match split_by sp s' with
          | w :: ws => (c :: w) :: ws
          | [] => [[c]]
          end
      end
  end.

(** [s.split()]. *)
Definition split (s : str) : list str := split_by isspace s.

(** [sep.join(parts)]. *)
Fixpoint join (sep : str) (parts : list str) : str :=
  match parts with
  | [] => []
  | [p] => p
  | p :: parts' => p ++ sep ++ join sep parts'
  end.

(** [def tokenize(line)]. *)
Definition tokenize (line : str) : list str :=
  let table := punctuation in
  split (strip (lower (translate table line))).

(** [def tokenize_count(line)], with the accumulator [num_lines] passed in
    and out. *)
Definition tokenize_count (line : str) (num_lines : Z) : list str * Z :=
  let num_lines :=
    match line with
    | [] => num_lines
    | _ => (num_lines + 1)%Z
    end in
  (tokenize line, num_lines).

(** [ulysses.flatMap(lambda line: tokenize_count(line))] over the lines in
    order: the words of all lines, and the accumulator afterwards. *)
Fixpoint flatMap_tokenize_count (lines : list str) (num_lines : Z)
    : list str * Z :=
  match lines with
  | [] => ([], num_lines)
  | line :: lines' =>
    let '(ws, n1) := tokenize_count line num_lines in
    let '(rest, n2) := flatMap_tokenize_count lines' n1 in
    (ws ++ rest, n2)
  end.

(** A [dict] from characters to integers. *)
Definition dict : Type := list (ascii * Z).

(** [d.get(k, default)]. *)
Fixpoint get (d : dict) (k : ascii) (default : Z) : Z :=
  match d with
  | [] => default
  | (k', v) :: d' => if Ascii.eqb k k' then v else get d' k default
  end.

(** [string.ascii_letters]. *)
Definition ascii_letters : str :=
  bytes "abcdefghijklmnopqrstuvwxyzABCDEFGHIJKLMNOPQRSTUVWXYZ".

(** [table = dict(zip(string.ascii_letters, count()))]. *)
Definition table : dict :=
  combine ascii_letters (map Z.of_nat (seq 0 (length ascii_letters))).

(** [word[0]] and [word[-1]]; [None] stands for the [IndexError] of an
    empty [word]. *)
Definition first_char (word : str) : option ascii :=
  match word with
  | c :: _ => Some c
  | [] => None
  end.

Definition last_char (word : str) : option ascii :=
  match word with
  | [] => None
  | c :: w => Some (last w c)
  end.

(** [sum(table.get(pick(word), 0) for word in words if word.isalpha())],
    from the running total [acc]. *)
Fixpoint sum_weights (pick : str -> option ascii) (d : dict)
    (words : list str) (acc : Z) : option Z :=
  match words with
  | [] => Some acc
  | word :: words' =>
    if isalpha word then
      match pick word with
      | None => None
      | Some c => sum_weights pick d words' (acc + get d c 0)%Z
      end
    else sum_weights pick d words' acc
  end.

(** [def weight_first(line, table)]. *)
Definition weight_first (line : str) (table : dict) : option Z :=
  let words := tokenize line in
  sum_weights first_char table words 0%Z.

(** [def weight_last(line, table)]. *)
Definition weight_last (line : str) (table : dict) : option Z :=
  let words := tokenize line in
  sum_weights last_char table words 0%Z.

(** [def prepare(line)]: "Each line contains numbers separated by a
    space." *)
Definition prepare (line : str) : str :=
  join [" "] (split line) ++ [Ctype.newline].

(** Pieces of text, told by the separator test [sp]: without a separator,
    of separators only, and what may follow a piece. *)
Definition sp_solid (sp : ascii -> bool) (t : str) : Prop :=
  Forall (fun c => sp c = false) t.

Definition sp_blank (sp : ascii -> bool) (t : str) : Prop :=
  Forall (fun c => sp c = true) t.

Definition sp_end (sp : ascii -> bool) (rest : str) : Prop :=
  match rest with
  | [] => True
  | c :: _ => sp c = true
  end.

(** What a character of a word of [tokenize] is: not punctuation, and its
    own lower case. *)
Definition token_char (c : ascii) : Prop :=
  is_punctuation c = false /\ lower_char c = c.

Definition nonempty (s : str) : bool :=
  match s with
  | [] => false
  | _ => true
  end.

(** The entries of a [dict] whose key is its own lower case. *)
Definition lower_entries (d : dict) : dict :=
  filter (fun kv => Ascii.eqb (lower_char (fst kv)) (fst kv)) d.

(** Code points below 128: the characters that UTF-8 writes as one byte,
    the code point itself. *)
Definition is_ascii (s : str) : bool :=
  forallb (fun c => (nat_of_ascii c <? 128)%nat) s.

(** White space for [str.split()] just when it is for the C++ stream. *)
Definition same_spaces (s : str) : bool :=
  forallb (fun c => Bool.eqb (isspace c) (Ctype.isspace c)) s.

(** A line from which [tokenize] gets at least one word. *)
Definition gives_words (line : str) : bool :=
  match tokenize line with
  | [] => false
  | _ :: _ => true
  end.

End Py.

(* ===================================================================== *)
(** * Facts about the library *)

Module StdFacts.
Import Ctype Std Text.

Ltac ascii_cases c :=
  destruct c as [[|] [|] [|] [|] [|] [|] [|] [|]]; vm_compute;
  try reflexivity; try discriminate; intuition congruence.

Lemma space_not_digit c : isspace c = true -> isdigit c = false.
Proof. ascii_cases c. Qed.

Lemma space_not_point c : isspace c = true -> Ascii.eqb c "." = false.
Proof. ascii_cases c. Qed.

Lemma space_not_exp c : isspace c = true -> is_exp c = false.
Proof. ascii_cases c. Qed.

Lemma space_not_sign c : isspace c = true -> is_sign c = false.
Proof. ascii_cases c. Qed.

Lemma space_not_zero c : isspace c = true -> Ascii.eqb c "0" = false.
Proof. ascii_cases c. Qed.

(** ** White space *)

Lemma skipws_solid c cs : isspace c = false -> skipws (c :: cs) = c :: cs.
Proof. intros H. cbn. now rewrite H. Qed.

Lemma skipws_length cs : (length (skipws cs) <= length cs)%nat.
Proof.
  induction cs as [|c cs IH]; cbn; [lia|].
  destruct (isspace c); cbn; lia.
Qed.

(** ** The field scanner reads a token without looking past the white
    space that ends it *)

Lemma extract_float_loop_space fm fd fs x c r :
  isspace c = true -> extract_float_loop fm fd fs x (c :: r) = (x, c :: r).
Proof.
  intros H. cbn.
  rewrite (space_not_digit _ H), (space_not_point _ H), (space_not_exp _ H).
  reflexivity.
Qed.

Lemma extract_float_loop_app n :
  forall t, (length t <= n)%nat ->
  forall fm fd fs x c r, solid t -> isspace c = true ->
  extract_float_loop fm fd fs x (t ++ c :: r) =
  (fst (extract_float_loop fm fd fs x t),
   snd (extract_float_loop fm fd fs x t) ++ c :: r).
Proof.
  induction n as [|n IH]; intros t Hlen fm fd fs x c r Ht Hc.
  - destruct t; [|cbn in Hlen; lia].
    cbn [app]. rewrite extract_float_loop_space by assumption. reflexivity.
  - destruct t as [|a t].
    + cbn [app]. rewrite extract_float_loop_space by assumption. reflexivity.
    + inversion Ht as [|? ? Ha Ht']; subst. cbn in Hlen.
      cbn [app extract_float_loop].
      destruct (isdigit a); [apply IH; [lia|assumption..]|].
      destruct (Ascii.eqb a "." && negb fd && negb fs);
        [apply IH; [lia|assumption..]|].
      destruct (is_exp a && negb fs && fm); [|reflexivity].
      destruct t as [|b t].
      * cbn [app]. rewrite (space_not_sign _ Hc).
        rewrite extract_float_loop_space by assumption. reflexivity.
      * inversion Ht' as [|? ? Hb Ht'']; subst. cbn in Hlen.
        cbn [app]. destruct (is_sign b).
        -- apply IH; [lia|assumption..].
        -- apply (IH (b :: t)); [cbn; lia|assumption..].
Qed.

Lemma skip_zeros_app t c r :
  isspace c = true -> skip_zeros (t ++ c :: r) = skip_zeros t ++ c :: r.
Proof.
  intros Hc. induction t as [|a t IH]; cbn.
  - now rewrite (space_not_zero _ Hc).
  - destruct (Ascii.eqb a "0"); [exact IH|reflexivity].
Qed.

Lemma skip_zeros_solid t : solid t -> solid (skip_zeros t).
Proof.
  induction 1 as [|a t Ha Ht IH]; cbn; [constructor|].
  destruct (Ascii.eqb a "0"); [exact IH|now constructor].
Qed.

Lemma skip_zeros_length t : (length (skip_zeros t) <= length t)%nat.
Proof.
  induction t as [|a t IH]; cbn; [lia|].
  destruct (Ascii.eqb a "0"); cbn; lia.
Qed.

Lemma extract_float_app t c r :
  solid t -> isspace c = true ->
  extract_float (t ++ c :: r) =
  (fst (extract_float t), snd (extract_float t) ++ c :: r).
Proof.
  intros Ht Hc.
  assert (Hgen : forall sign t1, solid t1 ->
    extract_float_loop
      (negb (length (skip_zeros (t1 ++ c :: r)) =? length (t1 ++ c :: r))%nat)
      false false
      (sign ++ (if negb (length (skip_zeros (t1 ++ c :: r))
                          =? length (t1 ++ c :: r))%nat
                then ["0"] else []))
      (skip_zeros (t1 ++ c :: r)) =
    (fst (extract_float_loop
            (negb (length (skip_zeros t1) =? length t1)%nat) false false
            (sign ++ (if negb (length (skip_zeros t1) =? length t1)%nat
                      then ["0"] else []))
            (skip_zeros t1)),
     snd (extract_float_loop
            (negb (length (skip_zeros t1) =? length t1)%nat) false false
            (sign ++ (if negb (length (skip_zeros t1) =? length t1)%nat
                      then ["0"] else []))
            (skip_zeros t1)) ++ c :: r)).
  { intros sign t1 Ht1.
    rewrite skip_zeros_app by assumption.
    replace (length (skip_zeros t1 ++ c :: r) =? length (t1 ++ c :: r))%nat
      with (length (skip_zeros t1) =? length t1)%nat.
    - apply (extract_float_loop_app (length (skip_zeros t1)));
        [lia|now apply skip_zeros_solid|assumption].
    - rewrite !length_app. cbn [length].
      destruct (Nat.eqb_spec (length (skip_zeros t1)) (length t1));
        symmetry; [apply Nat.eqb_eq|apply Nat.eqb_neq]; lia. }
  unfold extract_float.
  destruct t as [|a t].
  - cbn [app]. rewrite (space_not_sign _ Hc).
    specialize (Hgen [] [] (Forall_nil _)). cbn [app] in Hgen.
    cbn [app]. exact Hgen.
  - inversion Ht as [|? ? Ha Ht']; subst. cbn [app].
    destruct (is_sign a).
    + apply (Hgen [a] t Ht').
    + apply (Hgen [] (a :: t) Ht).
Qed.

(** ** The scanner consumes at least as many bytes as the field holds *)

Lemma extract_float_loop_length n :
  forall cs, (length cs <= n)%nat ->
  forall fm fd fs x,
  (length (fst (extract_float_loop fm fd fs x cs))
   + length (snd (extract_float_loop fm fd fs x cs))
   <= length x + length cs)%nat.
Proof.
  induction n as [|n IH]; intros cs Hlen fm fd fs x.
  - destruct cs; [cbn; lia|cbn in Hlen; lia].
  - destruct cs as [|a cs]; [cbn; lia|].
    cbn in Hlen. cbn [extract_float_loop].
    destruct (isdigit a).
    { specialize (IH cs ltac:(lia) true fd fs (x ++ [a])).
      rewrite length_app in IH. cbn [length] in *. lia. }
    destruct (Ascii.eqb a "." && negb fd && negb fs).
    { specialize (IH cs ltac:(lia) fm true fs (x ++ ["."])).
      rewrite length_app in IH. cbn [length] in *. lia. }
    destruct (is_exp a && negb fs && fm); [|cbn; lia].
    destruct cs as [|b cs].
    { cbn [fst snd]. rewrite length_app. cbn [length]. lia. }
    cbn in Hlen. destruct (is_sign b).
    + specialize (IH cs ltac:(lia) fm fd true (x ++ ["e"; b])).
      rewrite length_app in IH. cbn [length] in *. lia.
    + specialize (IH (b :: cs) ltac:(cbn; lia) fm fd true (x ++ ["e"])).
      rewrite length_app in IH. cbn [length] in *. lia.
Qed.

Lemma extract_float_length cs :
  (length (fst (extract_float cs)) + length (snd (extract_float cs))
   <= length cs)%nat.
Proof.
  assert (Hgen : forall sign cs1,
    (length (fst (extract_float_loop
                    (negb (length (skip_zeros cs1) =? length cs1)%nat)
                    false false
                    (sign ++ (if negb (length (skip_zeros cs1) =? length cs1)%nat
                              then ["0"] else []))
                    (skip_zeros cs1)))
     + length (snd (extract_float_loop
                    (negb (length (skip_zeros cs1) =? length cs1)%nat)
                    false false
                    (sign ++ (if negb (length (skip_zeros cs1) =? length cs1)%nat
                              then ["0"] else []))
                    (skip_zeros cs1)))
     <= length sign + length cs1)%nat).
  { intros sign cs1.
    pose proof (skip_zeros_length cs1) as Hz.
    match goal with
    | |- (length (fst (extract_float_loop ?fm ?fd ?fs ?x ?c)) + _ <= _)%nat =>
      pose proof (extract_float_loop_length (length c) c (le_n _) fm fd fs x) as H
    end.
    rewrite length_app in H.
    destruct (Nat.eqb_spec (length (skip_zeros cs1)) (length cs1));
      cbn [negb length] in *; lia. }
  unfold extract_float. destruct cs as [|a cs].
  - apply (Hgen [] []).
  - destruct (is_sign a).
    + specialize (Hgen [a] cs). cbn [length] in *. lia.
    + apply (Hgen [] (a :: cs)).
Qed.

Lemma convert_to_v_nil : convert_to_v [] = (Binary64.zero, true).
Proof. reflexivity. Qed.

(** A successful [>>] has read at least one byte. *)
Lemma extract_double_consumes ins u :
  fail (fst (extract_double ins u)) = false ->
  (length (rdbuf (fst (extract_double ins u))) < length (rdbuf ins))%nat.
Proof.
  unfold extract_double. destruct (good ins); [|cbn; discriminate].
  pose proof (skipws_length (rdbuf ins)) as Hs.
  destruct (skipws (rdbuf ins)) as [|c cs] eqn:E; [cbn; discriminate|].
  pose proof (extract_float_length (c :: cs)) as Hl.
  destruct (extract_float (c :: cs)) as [xtrc rest].
  destruct xtrc as [|x xtrc].
  - rewrite convert_to_v_nil. cbn. discriminate.
  - destruct (convert_to_v (x :: xtrc)) as [v err]. cbn in *. intros _. lia.
Qed.

(** The value [u] held before [>>] shows neither in the stream afterwards
    nor, when [>>] succeeds, in [u]. *)
Lemma extract_double_stream ins u1 u2 :
  fst (extract_double ins u1) = fst (extract_double ins u2).
Proof.
  unfold extract_double. destruct (good ins); [|reflexivity].
  destruct (skipws (rdbuf ins)); [reflexivity|].
  destruct (extract_float _), (convert_to_v _). reflexivity.
Qed.

Lemma extract_double_value ins u1 u2 :
  fail (fst (extract_double ins u1)) = false ->
  snd (extract_double ins u1) = snd (extract_double ins u2).
Proof.
  unfold extract_double. destruct (good ins); [|cbn; discriminate].
  destruct (skipws (rdbuf ins)); [cbn; discriminate|].
  destruct (extract_float _), (convert_to_v _). reflexivity.
Qed.

(** ** [>>] on a token followed by white space or by the end of the line *)

Lemma extract_float_token t rest :
  solid t -> token_end rest ->
  extract_float (t ++ rest) =
  (fst (extract_float t), snd (extract_float t) ++ rest).
Proof.
  intros Ht Hr. destruct rest as [|c r].
  - rewrite !app_nil_r. now destruct (extract_float t).
  - now apply extract_float_app.
Qed.

Lemma extract_double_token cs t rest u v :
  skipws cs = t ++ rest -> t <> [] -> solid t -> token_end rest ->
  Spec.parse_token t = Some v ->
  extract_double (mk_istream cs false false) u =
  (mk_istream rest (match rest with [] => true | _ => false end) false, v).
Proof.
  intros Hs Hne Ht Hr Hp.
  unfold Spec.parse_token, extract_double, open in Hp. cbn [good rdbuf eofbit failbit negb andb] in Hp.
  destruct t as [|a t]; [congruence|].
  inversion Ht as [|? ? Ha Ht']; subst.
  rewrite (skipws_solid _ _ Ha) in Hp.
  unfold extract_double. cbn [good rdbuf eofbit failbit negb andb].
  rewrite Hs. cbn [app].
  change (a :: t ++ rest) with ((a :: t) ++ rest).
  rewrite (extract_float_token (a :: t) rest Ht Hr).
  destruct (extract_float (a :: t)) as [xtrc rest'].
  cbn [fst snd] in *.
  destruct (convert_to_v xtrc) as [v' err].
  cbn [fst snd fail failbit rdbuf] in *.
  destruct err; [discriminate|].
  destruct rest' as [|b rest']; [|discriminate].
  cbn in Hp. injection Hp as ->. reflexivity.
Qed.

Lemma extract_double_no_number cs g rest u :
  skipws cs = g ++ rest -> g <> [] -> solid g -> token_end rest ->
  Spec.no_number g = true ->
  fail (fst (extract_double (mk_istream cs false false) u)) = true.
Proof.
  intros Hs Hne Hg Hr Hp.
  unfold Spec.no_number, extract_double, open in Hp. cbn [good rdbuf eofbit failbit negb andb] in Hp.
  destruct g as [|a g]; [congruence|].
  inversion Hg as [|? ? Ha Hg']; subst.
  rewrite (skipws_solid _ _ Ha) in Hp.
  unfold extract_double. cbn [good rdbuf eofbit failbit negb andb].
  rewrite Hs. cbn [app].
  change (a :: g ++ rest) with ((a :: g) ++ rest).
  rewrite (extract_float_token (a :: g) rest Hg Hr).
  destruct (extract_float (a :: g)) as [xtrc rest'].
  cbn [fst snd] in *.
  destruct (convert_to_v xtrc) as [v' err].
  exact Hp.
Qed.

(** A token whose first byte is neither a digit, nor a sign, nor a point
    starts with no number. *)
Lemma no_number_first c r :
  isspace c = false -> isdigit c = false -> is_sign c = false ->
  Ascii.eqb c "." = false ->
  Spec.no_number (c :: r) = true.
Proof.
  intros Hs Hd Hg Hp.
  assert (Hz : Ascii.eqb c "0" = false).
  { destruct (Ascii.eqb_spec c "0") as [->|_]; [discriminate Hd|reflexivity]. }
  unfold Spec.no_number, extract_double, open.
  cbn [good rdbuf eofbit failbit negb andb].
  rewrite (skipws_solid _ _ Hs).
  unfold extract_float. rewrite Hg. cbn [skip_zeros]. rewrite Hz.
  rewrite Nat.eqb_refl. cbn [negb app extract_float_loop].
  rewrite Hd, Hp. cbn [andb]. rewrite andb_false_r. reflexivity.
Qed.

End StdFacts.

(* ===================================================================== *)
(** * Decimal literals and the scanner *)

Module StrtodFacts.
Import Ctype Std Text Strtod Literal StdFacts.

(** ** Character classes *)

Lemma digit_not_sign c : isdigit c = true -> is_sign c = false.
Proof. ascii_cases c. Qed.

Lemma digit_not_point c : isdigit c = true -> Ascii.eqb c "." = false.
Proof. ascii_cases c. Qed.

Lemma digit_not_space c : isdigit c = true -> isspace c = false.
Proof. ascii_cases c. Qed.

Lemma sign_not_space c : is_sign c = true -> isspace c = false.
Proof. ascii_cases c. Qed.

Lemma sign_not_digit c : is_sign c = true -> isdigit c = false.
Proof. ascii_cases c. Qed.

Lemma exp_not_digit c : is_exp c = true -> isdigit c = false.
Proof. ascii_cases c. Qed.

Lemma exp_not_point c : is_exp c = true -> Ascii.eqb c "." = false.
Proof. ascii_cases c. Qed.

Lemma exp_not_zero c : is_exp c = true -> Ascii.eqb c "0" = false.
Proof. ascii_cases c. Qed.

Lemma exp_not_sign c : is_exp c = true -> is_sign c = false.
Proof. ascii_cases c. Qed.

Lemma zero_digit c : Ascii.eqb c "0" = true -> isdigit c = true.
Proof. ascii_cases c. Qed.

(** ** The pieces of [strtod_all] *)

Lemma span_digits_spec cs :
  cs = fst (span_digits cs) ++ snd (span_digits cs) /\
  all_digits (fst (span_digits cs)).
Proof.
  induction cs as [|c cs [IH1 IH2]]; cbn [span_digits].
  - split; [reflexivity|constructor].
  - destruct (isdigit c) eqn:Hc.
    + destruct (span_digits cs) as [ds r]. cbn [fst snd app] in *.
      split; [now rewrite <- IH1|now constructor].
    + split; [reflexivity|constructor].
Qed.

Lemma span_digits_app ds r :
  all_digits ds -> no_digit_first r -> span_digits (ds ++ r) = (ds, r).
Proof.
  intros Hds Hr. induction Hds as [|c ds Hc _ IH]; cbn [app].
  - destruct r as [|c r]; [reflexivity|]. cbn in *. now rewrite Hr.
  - cbn [span_digits]. now rewrite Hc, IH.
Qed.

Lemma take_sign_spec cs :
  exists sg,
    cs = sg ++ snd (take_sign cs) /\ sign_ok sg /\
    is_minus sg = fst (take_sign cs).
Proof.
  destruct cs as [|c cs]; [exists []; now cbn|].
  cbn [take_sign]. destruct (is_sign c) eqn:Hc.
  - exists [c]. now cbn.
  - exists []. now cbn.
Qed.

Lemma take_sign_app sg r :
  sign_ok sg ->
  match r with [] => True | c :: _ => is_sign c = false end ->
  take_sign (sg ++ r) = (is_minus sg, r).
Proof.
  intros Hsg Hr. destruct sg as [|c [|? ?]]; cbn in *; try contradiction.
  - destruct r as [|c r]; [reflexivity|]. cbn. now rewrite Hr.
  - now rewrite Hsg.
Qed.

Lemma take_fraction_spec cs :
  exists pt,
    cs = pt ++ fst (take_fraction cs) ++ snd (take_fraction cs) /\
    all_digits (fst (take_fraction cs)) /\
    (pt = ["."] \/ (pt = [] /\ fst (take_fraction cs) = [])).
Proof.
  destruct cs as [|c cs].
  - exists []. cbn. repeat split; auto. constructor.
  - destruct (Ascii.eqb_spec c ".") as [->|Hc].
    + exists ["."]. cbn [take_fraction].
      destruct (span_digits_spec cs) as [H1 H2].
      repeat split; auto. cbn [app]. now rewrite <- H1.
    + exists [].
      assert (E : take_fraction (c :: cs) = ([], c :: cs)).
      { destruct c as [[|] [|] [|] [|] [|] [|] [|] [|]]; try reflexivity.
        contradiction. }
      rewrite E. cbn. repeat split; auto. constructor.
Qed.

Lemma take_fraction_point fp r :
  all_digits fp -> no_digit_first r ->
  take_fraction ("." :: fp ++ r) = (fp, r).
Proof. intros. cbn [take_fraction]. now apply span_digits_app. Qed.

Lemma take_fraction_none r :
  match r with [] => True | c :: _ => Ascii.eqb c "." = false end ->
  take_fraction r = ([], r).
Proof.
  destruct r as [|c r]; [reflexivity|]. intros Hc.
  destruct c as [[|] [|] [|] [|] [|] [|] [|] [|]]; try reflexivity.
  discriminate.
Qed.

Lemma take_exponent_spec cs e :
  take_exponent cs = Some e ->
  exists ex,
    cs = render_exponent ex /\ exponent_ok ex /\ exponent_value ex = e.
Proof.
  destruct cs as [|c cs]; cbn [take_exponent].
  - intros [= <-]. now exists None.
  - destruct (is_exp c) eqn:Hc; [|discriminate].
    destruct (take_sign_spec cs) as (sg & H1 & H2 & H3).
    destruct (take_sign cs) as [eneg cs2]. cbn [fst snd] in *.
    destruct (span_digits_spec cs2) as [H4 H5].
    destruct (span_digits cs2) as [ed cs3]. cbn [fst snd] in *.
    destruct ed as [|d ed]; [discriminate|].
    destruct cs3; [|discriminate].
    intros [= <-]. exists (Some (c, sg, d :: ed)).
    rewrite app_nil_r in H4. subst cs2 cs.
    cbn [render_exponent exponent_ok exponent_value].
    repeat split; auto; try discriminate. now rewrite H3.
Qed.

Lemma take_exponent_render ex :
  exponent_ok ex -> take_exponent (render_exponent ex) = Some (exponent_value ex).
Proof.
  destruct ex as [[[e esg] ed]|]; [|reflexivity].
  intros (He & Hsg & Hed & Hne).
  cbn [render_exponent take_exponent exponent_value]. rewrite He.
  rewrite take_sign_app; [|assumption|].
  - rewrite <- (app_nil_r ed) at 1. rewrite span_digits_app by (assumption || exact I).
    destruct ed; [congruence|reflexivity].
  - destruct Hed as [|d ed Hd _]; [congruence|]. now apply digit_not_sign.
Qed.


(** ** A well-formed literal is what [strtod_all] accepts *)

Lemma first_of_mantissa ip pt fp r (P : ascii -> Prop) :
  all_digits ip -> (pt = ["."] \/ (pt = [] /\ fp = [])) -> ip ++ fp <> [] ->
  (forall c, isdigit c = true -> P c) -> P "." ->
  match ip ++ pt ++ fp ++ r with [] => True | c :: _ => P c end.
Proof.
  intros Hip Hpt Hne Hd Hp.
  destruct Hip as [|d ip Hdig _]; cbn [app].
  - destruct Hpt as [->|[-> ->]]; [exact Hp|]. now cbn in Hne.
  - now apply Hd.
Qed.

Lemma after_int_part pt fp ex (P : ascii -> Prop) :
  (pt = ["."] \/ (pt = [] /\ fp = [])) -> exponent_ok ex ->
  P "." -> (forall e, is_exp e = true -> P e) ->
  match pt ++ fp ++ render_exponent ex with [] => True | c :: _ => P c end.
Proof.
  intros Hpt Hex Hp He.
  destruct Hpt as [->|[-> ->]]; [exact Hp|]. cbn [app].
  destruct ex as [[[e esg] ed]|]; [|exact I].
  destruct Hex as [Hexp _]. now apply He.
Qed.

Lemma after_frac_part ex (P : ascii -> Prop) :
  exponent_ok ex -> (forall e, is_exp e = true -> P e) ->
  match render_exponent ex with [] => True | c :: _ => P c end.
Proof.
  intros Hex He. destruct ex as [[[e esg] ed]|]; [|exact I].
  destruct Hex as [Hexp _]. now apply He.
Qed.

Lemma strtod_all_render l :
  well_formed l -> strtod_all (render l) = Some (value l).
Proof.
  destruct l as [sg ip pt fp ex].
  unfold well_formed, render, value.
  cbn [sign int_part point frac_part exponent].
  intros (Hsg & Hip & Hfp & Hpt & Hne & Hex).
  unfold strtod_all.
  rewrite take_sign_app; [|assumption|].
  2:{ apply (first_of_mantissa ip pt fp _ (fun c => is_sign c = false));
        auto using digit_not_sign. }
  rewrite span_digits_app; [|assumption|].
  2:{ apply (after_int_part pt fp ex (fun c => isdigit c = false));
        auto using exp_not_digit. }
  assert (Hf : take_fraction (pt ++ fp ++ render_exponent ex) =
               (fp, render_exponent ex)).
  { destruct Hpt as [->|[-> ->]].
    - apply (take_fraction_point fp (render_exponent ex)); [assumption|].
      apply (after_frac_part ex (fun c => isdigit c = false));
        auto using exp_not_digit.
    - apply take_fraction_none.
      apply (after_frac_part ex (fun c => Ascii.eqb c "." = false));
        auto using exp_not_point. }
  rewrite Hf. destruct (ip ++ fp) eqn:E; [congruence|]. rewrite <- E.
  now rewrite take_exponent_render.
Qed.

Lemma strtod_all_inv t x :
  strtod_all t = Some x ->
  exists l, well_formed l /\ render l = t /\ value l = x.
Proof.
  unfold strtod_all.
  destruct (take_sign_spec t) as (sg & H1 & H2 & H3).
  destruct (take_sign t) as [neg s1]. cbn [fst snd] in *.
  destruct (span_digits_spec s1) as [H4 H5].
  destruct (span_digits s1) as [ip s2]. cbn [fst snd] in *.
  destruct (take_fraction_spec s2) as (pt & H6 & H7 & H8).
  destruct (take_fraction s2) as [fp s3]. cbn [fst snd] in *.
  destruct (ip ++ fp) eqn:E; [discriminate|]. rewrite <- E.
  destruct (take_exponent s3) as [e|] eqn:Ee; [|discriminate].
  intros [= <-].
  destruct (take_exponent_spec _ _ Ee) as (ex & H9 & H10 & H11).
  exists (mk_literal sg ip pt fp ex).
  unfold well_formed, render, value.
  cbn [sign int_part point frac_part exponent].
  repeat split; auto; congruence.
Qed.


(** ** Leading zeros *)

Lemma digits_value_zero cs : digits_value ("0" :: cs) = digits_value cs.
Proof. reflexivity. Qed.

Lemma digits_value_skip_zeros ip r :
  digits_value (skip_zeros ip ++ r) = digits_value (ip ++ r).
Proof.
  induction ip as [|a ip IH]; [reflexivity|].
  cbn [skip_zeros app]. destruct (Ascii.eqb_spec a "0") as [->|_]; [|reflexivity].
  now rewrite digits_value_zero.
Qed.

Lemma skip_zeros_digits ip : all_digits ip -> all_digits (skip_zeros ip).
Proof.
  induction 1 as [|a ip Ha Hip IH]; cbn; [constructor|].
  destruct (Ascii.eqb a "0"); [exact IH|now constructor].
Qed.

Lemma skip_zeros_app_rest ip r :
  match r with [] => True | c :: _ => Ascii.eqb c "0" = false end ->
  skip_zeros (ip ++ r) = skip_zeros ip ++ r.
Proof.
  intros Hr. induction ip as [|a ip IH]; cbn [app skip_zeros].
  - destruct r as [|c r]; [reflexivity|]. cbn. now rewrite Hr.
  - destruct (Ascii.eqb a "0"); [exact IH|reflexivity].
Qed.

(** ** The scanner on a literal *)

Lemma extract_float_loop_digits ds : all_digits ds ->
  forall fm fd fs x r,
  extract_float_loop fm fd fs x (ds ++ r) =
  extract_float_loop (fm || negb (length ds =? 0)%nat) fd fs (x ++ ds) r.
Proof.
  induction 1 as [|c ds Hc _ IH]; intros fm fd fs x r.
  - cbn [app length Nat.eqb negb]. now rewrite orb_false_r, app_nil_r.
  - cbn [app extract_float_loop length Nat.eqb negb]. rewrite Hc, IH.
    rewrite orb_true_r. cbn [orb]. now rewrite <- app_assoc.
Qed.

Lemma extract_float_loop_exponent fd x ex :
  exponent_ok ex ->
  extract_float_loop true fd false x (render_exponent ex) =
  (x ++ render_exponent (canonical ex), []).
Proof.
  destruct ex as [[[e esg] ed]|]; cbn [render_exponent canonical].
  - intros (He & Hsg & Hed & Hne).
    cbn [extract_float_loop].
    rewrite (exp_not_digit _ He), (exp_not_point _ He), He. cbn [andb negb].
    destruct esg as [|c [|? ?]]; cbn in Hsg; try contradiction.
    + destruct Hed as [|d ed Hd Hed]; [congruence|]. cbn [app].
      rewrite (digit_not_sign _ Hd).
      rewrite <- (app_nil_r (d :: ed)) at 1.
      rewrite extract_float_loop_digits by now constructor.
      cbn [extract_float_loop]. now rewrite <- app_assoc.
    + cbn [app]. rewrite Hsg.
      rewrite <- (app_nil_r ed) at 1.
      rewrite extract_float_loop_digits by assumption.
      cbn [extract_float_loop]. now rewrite <- app_assoc.
  - intros _. cbn. now rewrite app_nil_r.
Qed.

Lemma extract_float_signed sg body :
  sign_ok sg ->
  match body with [] => True | c :: _ => is_sign c = false end ->
  extract_float (sg ++ body) =
  extract_float_loop
    (negb (length (skip_zeros body) =? length body)%nat) false false
    (sg ++ (if negb (length (skip_zeros body) =? length body)%nat
            then ["0"] else []))
    (skip_zeros body).
Proof.
  intros Hsg Hb. unfold extract_float.
  destruct sg as [|c [|? ?]]; cbn in Hsg; try contradiction; cbn [app].
  - destruct body as [|b body]; [reflexivity|]. now rewrite Hb.
  - now rewrite Hsg.
Qed.

Lemma extract_float_render l :
  well_formed l -> extract_float (render l) = (render (Spec.field l), []).
Proof.
  destruct l as [sg ip pt fp ex].
  unfold well_formed, render, Spec.field.
  cbn [sign int_part point frac_part exponent].
  intros (Hsg & Hip & Hfp & Hpt & Hne & Hex).
  rewrite extract_float_signed; [|assumption|].
  2:{ apply (first_of_mantissa ip pt fp _ (fun c => is_sign c = false));
        auto using digit_not_sign. }
  rewrite skip_zeros_app_rest.
  2:{ apply (after_int_part pt fp ex (fun c => Ascii.eqb c "0" = false));
        auto using exp_not_zero. }
  replace (length (skip_zeros ip ++ pt ++ fp ++ render_exponent ex)
           =? length (ip ++ pt ++ fp ++ render_exponent ex))%nat
    with (length (skip_zeros ip) =? length ip)%nat.
  2:{ rewrite !(length_app _ (pt ++ _)).
      destruct (Nat.eqb_spec (length (skip_zeros ip)) (length ip));
        symmetry; [apply Nat.eqb_eq|apply Nat.eqb_neq]; lia. }
  pose proof (skip_zeros_digits ip Hip) as Hip'.
  pose proof (skip_zeros_length ip) as Hlen.
  rewrite (extract_float_loop_digits _ Hip').
  assert (Hfm : (negb (length (skip_zeros ip) =? length ip)%nat
                 || negb (length (skip_zeros ip) =? 0)%nat
                 || negb (length fp =? 0)%nat)%bool = true).
  { destruct (Nat.eqb_spec (length (skip_zeros ip)) (length ip)) as [E|E];
      [|reflexivity].
    destruct (Nat.eqb_spec (length (skip_zeros ip)) 0) as [E0|E0];
      [|reflexivity].
    destruct (Nat.eqb_spec (length fp) 0) as [E1|E1]; [|reflexivity].
    exfalso. apply Hne.
    destruct ip; [|cbn in *; lia]. destruct fp; [reflexivity|cbn in *; lia]. }
  assert (Hx : forall z : bool,
    (sg ++ (if negb z then ["0"] else [])) ++ skip_zeros ip =
    sg ++ (if z then skip_zeros ip else "0" :: skip_zeros ip)).
  { intros []; cbn [negb]; now rewrite <- app_assoc. }
  destruct Hpt as [->|[-> ->]].
  - cbn [app extract_float_loop]. cbn [isdigit nat_of_ascii].
    change (isdigit ".") with false. change (Ascii.eqb "." ".") with true.
    cbn [andb negb].
    rewrite (extract_float_loop_digits _ Hfp), Hfm.
    rewrite extract_float_loop_exponent by assumption.
    rewrite Hx. now rewrite <- !app_assoc.
  - cbn [app length Nat.eqb negb] in *. rewrite orb_false_r in Hfm. rewrite Hfm.
    rewrite extract_float_loop_exponent by assumption.
    rewrite Hx. now rewrite <- !app_assoc.
Qed.


(** ** The field is worth what the literal is worth *)

Lemma field_well_formed l : well_formed l -> well_formed (Spec.field l).
Proof.
  destruct l as [sg ip pt fp ex].
  unfold well_formed, Spec.field.
  cbn [sign int_part point frac_part exponent].
  intros (Hsg & Hip & Hfp & Hpt & Hne & Hex).
  pose proof (skip_zeros_digits ip Hip) as Hip'.
  repeat split; auto.
  - destruct (length (skip_zeros ip) =? length ip)%nat; [assumption|].
    now constructor.
  - destruct (Nat.eqb_spec (length (skip_zeros ip)) (length ip)) as [E|E];
      [|discriminate].
    intros H. apply Hne.
    destruct (skip_zeros ip); [|discriminate]. cbn [app] in H. subst fp.
    destruct ip; [reflexivity|discriminate].
  - destruct ex as [[[e esg] ed]|]; [|exact I].
    destruct Hex as (_ & H1 & H2 & H3). now repeat split.
Qed.

Lemma field_value l : value (Spec.field l) = value l.
Proof.
  destruct l as [sg ip pt fp ex]. unfold value, Spec.field.
  cbn [sign int_part point frac_part exponent]. f_equal.
  - destruct (length (skip_zeros ip) =? length ip)%nat.
    + apply digits_value_skip_zeros.
    + cbn [app]. rewrite digits_value_zero. apply digits_value_skip_zeros.
  - now destruct ex as [[[e esg] ed]|].
Qed.

Lemma render_first_solid l :
  well_formed l ->
  exists c r, render l = c :: r /\ isspace c = false.
Proof.
  destruct l as [sg ip pt fp ex]. unfold well_formed, render.
  cbn [sign int_part point frac_part exponent].
  intros (Hsg & Hip & Hfp & Hpt & Hne & Hex).
  destruct sg as [|c [|? ?]]; cbn in Hsg; try contradiction; cbn [app].
  - pose proof (first_of_mantissa ip pt fp (render_exponent ex)
                  (fun c => isspace c = false) Hip Hpt Hne
                  digit_not_space eq_refl) as H.
    destruct (ip ++ pt ++ fp ++ render_exponent ex) as [|c r] eqn:E.
    + exfalso. apply Hne.
      destruct ip; [|discriminate].
      destruct Hpt as [->|[-> ->]]; [discriminate|reflexivity].
    + now exists c, r.
  - exists c, (ip ++ pt ++ fp ++ render_exponent ex).
    split; [reflexivity|now apply sign_not_space].
Qed.

(** A decimal literal in the range of [double] is a token that [>>] reads
    as a whole, and [>>] gives it the value of the literal. *)
Lemma numeric_value_parse_token t v :
  Spec.numeric_value t = Some v -> Spec.parse_token t = Some v.
Proof.
  unfold Spec.numeric_value.
  destruct (strtod_all t) as [x|] eqn:E; [|discriminate].
  destruct (Binary64.is_infinity x) eqn:Hinf; [discriminate|].
  intros [= <-].
  destruct (strtod_all_inv t x E) as (l & Hwf & <- & <-).
  destruct (render_first_solid l Hwf) as (c & r & Hr & Hc).
  unfold Spec.parse_token, extract_double, open.
  cbn [good rdbuf eofbit failbit negb andb].
  rewrite Hr, (skipws_solid _ _ Hc), <- Hr.
  rewrite (extract_float_render l Hwf).
  unfold convert_to_v.
  rewrite (strtod_all_render _ (field_well_formed l Hwf)), field_value.
  destruct (value l); try discriminate; reflexivity.
Qed.

End StrtodFacts.

(* ===================================================================== *)
(** * What [%.6g] writes holds no newline *)

Module PrintfFacts.
Import Ctype Printf Text.

Lemma plain_app a b : plain a -> plain b -> plain (a ++ b).
Proof. intros. apply Forall_app. now split. Qed.

Lemma plain_firstn k cs : plain cs -> plain (firstn k cs).
Proof.
  intros H. revert k. induction H as [|c cs Hc _ IH]; intros [|k]; cbn;
    try constructor; try assumption. apply IH.
Qed.

Lemma plain_skipn k cs : plain cs -> plain (skipn k cs).
Proof.
  intros H. revert k. induction H as [|c cs Hc Hcs IH]; intros [|k]; cbn;
    try (constructor; assumption). apply IH.
Qed.

Lemma plain_repeat c k : c <> newline -> plain (repeat c k).
Proof. intros Hc. induction k; cbn; constructor; auto. Qed.

Lemma digit_char_plain d : (0 <= d < 10)%Z -> digit_char d <> newline.
Proof.
  intros Hd E. unfold digit_char in E.
  apply (f_equal nat_of_ascii) in E.
  rewrite nat_ascii_embedding in E by lia.
  cbn in E. lia.
Qed.

Lemma digits_of_plain len : forall n, plain (digits_of len n).
Proof.
  induction len as [|len IH]; intros n; cbn [digits_of]; [constructor|].
  apply plain_app; [apply IH|].
  constructor; [|constructor].
  apply digit_char_plain. apply Z.mod_pos_bound. lia.
Qed.

Lemma strip_zeros_rev_plain cs : plain cs -> plain (strip_zeros_rev cs).
Proof.
  induction 1 as [|c cs Hc Hcs IH]; cbn; [constructor|].
  destruct (Ascii.eqb c "0"); [exact IH|now constructor].
Qed.

Lemma fraction_plain cs : plain cs -> plain (fraction cs).
Proof.
  intros H. unfold fraction.
  assert (Hs : plain (strip_zeros cs)).
  { unfold strip_zeros. apply Forall_rev, strip_zeros_rev_plain, Forall_rev, H. }
  destruct (strip_zeros cs); [constructor|].
  constructor; [discriminate|exact Hs].
Qed.

Lemma exponent_field_plain x : plain (exponent_field x).
Proof.
  unfold exponent_field.
  constructor; [discriminate|].
  constructor; [destruct (x <? 0)%Z; discriminate|].
  destruct (Z.abs x <? 10)%Z.
  - constructor; [discriminate|apply digits_of_plain].
  - apply digits_of_plain.
Qed.

Lemma format_positive_plain n d : plain (format_positive n d).
Proof.
  unfold format_positive.
  destruct (scaled n d (precision - 1 - exponent10 n d) =? 10 ^ precision)%Z;
    (destruct (_ || _)%bool;
     [|destruct (0 <=? _)%Z]);
    repeat first
      [ apply digits_of_plain | apply exponent_field_plain
      | apply fraction_plain | apply plain_firstn | apply plain_skipn
      | apply plain_repeat; discriminate
      | apply plain_app
      | constructor; [discriminate|] ].
Qed.

Lemma format_g_plain x : plain (format_g x).
Proof.
  destruct x as [s|s| |s m e]; cbn [format_g].
  - destruct s; repeat constructor; discriminate.
  - destruct s; repeat constructor; discriminate.
  - repeat constructor; discriminate.
  - destruct (Binary64.to_ratio m e) as [n d].
    apply plain_app; [destruct s; repeat constructor; discriminate|].
    apply format_positive_plain.
Qed.

Lemma count_lines_plain cs : plain cs -> count_lines cs = O.
Proof.
  unfold count_lines. induction 1 as [|c cs Hc _ IH]; [reflexivity|].
  cbn. destruct (ascii_dec c newline); [contradiction|exact IH].
Qed.

Lemma count_lines_app a b : count_lines (a ++ b) = (count_lines a + count_lines b)%nat.
Proof. apply count_occ_app. Qed.

(** An output line is one line. *)
Lemma count_lines_output_line x : count_lines (Spec.output_line x) = 1%nat.
Proof.
  unfold Spec.output_line. rewrite count_lines_app.
  rewrite (count_lines_plain _ (format_g_plain x)). reflexivity.
Qed.

End PrintfFacts.

(* ===================================================================== *)
(** * Facts about tokens *)

Module TextFacts.
Import Ctype Std Text StdFacts.

Lemma words_nil_inv cs : words cs = [] -> skipws cs = [].
Proof.
  induction cs as [|c cs IH]; [reflexivity|].
  cbn [words skipws]. destruct (isspace c); [exact IH|].
  destruct cs as [|d cs]; [discriminate|].
  destruct (isspace d); [discriminate|].
  destruct (words (d :: cs)); discriminate.
Qed.

(** The first token of a line, and the line after it. *)
Lemma words_cons_inv cs : forall t ts,
  words cs = t :: ts ->
  exists rest,
    skipws cs = t ++ rest /\ t <> [] /\ solid t /\ token_end rest /\
    words rest = ts /\ (length rest < length cs)%nat.
Proof.
  induction cs as [|c cs IH]; intros t ts; [discriminate|].
  cbn [words skipws]. destruct (isspace c) eqn:Hc.
  - intros H. destruct (IH _ _ H) as (rest & H1 & H2 & H3 & H4 & H5 & H6).
    exists rest. cbn [length]. repeat split; auto.
  - destruct cs as [|d cs].
    + intros [= <- <-]. exists []. cbn.
      repeat split; auto; try discriminate. now repeat constructor.
    + destruct (isspace d) eqn:Hd.
      * intros [= <- <-]. exists (d :: cs). cbn [app length token_end].
        repeat split; auto; try discriminate. now repeat constructor.
      * destruct (words (d :: cs)) as [|w ws] eqn:Hw.
        { apply words_nil_inv in Hw. rewrite skipws_solid in Hw by assumption.
          discriminate. }
        intros [= <- <-].
        destruct (IH _ _ eq_refl) as (rest & H1 & H2 & H3 & H4 & H5 & H6).
        rewrite skipws_solid in H1 by assumption.
        exists rest. rewrite H1. cbn [app length] in *.
        repeat split; auto; try discriminate; [now constructor|].
        rewrite length_app. lia.
Qed.

Lemma is_line_cons c l :
  is_line (c :: l) <-> Ascii.eqb c newline = false /\ is_line l.
Proof.
  unfold is_line. cbn [no_newline forallb].
  rewrite andb_true_iff, negb_true_iff. reflexivity.
Qed.

Lemma until_newline_line l rest :
  is_line l -> until_newline (l ++ newline :: rest) = (l, Some rest).
Proof.
  induction l as [|c l IH]; intros Hl.
  - reflexivity.
  - apply is_line_cons in Hl as [Hc Hl].
    cbn [app until_newline]. rewrite Hc, IH by assumption. reflexivity.
Qed.

Lemma until_newline_last l : is_line l -> until_newline l = (l, None).
Proof.
  induction l as [|c l IH]; intros Hl.
  - reflexivity.
  - apply is_line_cons in Hl as [Hc Hl].
    cbn [until_newline]. rewrite Hc, IH by assumption. reflexivity.
Qed.

(** Every input is a run of newline-terminated lines followed by a last
    piece without newline (empty when the input ends with a newline or is
    empty). *)
Lemma split_lines stdin :
  exists ls l, stdin = unlines ls ++ l /\ Forall is_line ls /\ is_line l.
Proof.
  induction stdin as [|c cs (ls & l & -> & Hls & Hl)].
  - exists [], []. repeat split. constructor.
  - destruct (Ascii.eqb c newline) eqn:Hc.
    + apply Ascii.eqb_eq in Hc as ->.
      exists ([] :: ls), l. repeat split; auto.
      constructor; [reflexivity|assumption].
    + destruct ls as [|l0 ls].
      * exists [], (c :: l). repeat split; [constructor|].
        now apply is_line_cons.
      * inversion Hls as [|? ? Hl0 Hls']; subst.
        exists ((c :: l0) :: ls), l. repeat split; auto.
        constructor; [|assumption].
        now apply is_line_cons.
Qed.

Lemma unlines_app a b : unlines (a ++ b) = unlines a ++ unlines b.
Proof. unfold unlines. now rewrite map_app, concat_app. Qed.

Lemma unlines_length ls : (length ls <= length (unlines ls))%nat.
Proof.
  induction ls as [|l ls IH]; [cbn; lia|].
  unfold unlines in *. cbn [map concat length].
  rewrite !length_app. cbn [length]. lia.
Qed.

End TextFacts.

(* ===================================================================== *)
(** * Facts about the program *)

Module FooFacts.
Import Ctype Std Text Foo StdFacts TextFacts.

(** ** The inner loop *)

(** The inner loop ends: every pass but the last reads at least a byte. *)
Lemma read_loop_total fuel : forall junk stream v,
  (length (rdbuf stream) < fuel)%nat ->
  exists v', read_loop fuel junk stream v = Some v'.
Proof.
  induction fuel as [|fuel IH]; intros junk stream v Hlen; [lia|].
  cbn [read_loop].
  pose proof (extract_double_consumes stream (junk O)) as Hc.
  destruct (extract_double stream (junk O)) as [stream' u'].
  cbn [fst] in Hc. unfold not_. destruct (fail stream').
  - now exists v.
  - apply IH. specialize (Hc eq_refl). lia.
Qed.

Lemma read_numbers_total junk line : exists v, read_numbers junk line = Some v.
Proof. apply read_loop_total. cbn. lia. Qed.

(** What an uninitialised [u] held is never pushed. *)
Lemma read_loop_junk fuel : forall junk1 junk2 stream v,
  read_loop fuel junk1 stream v = read_loop fuel junk2 stream v.
Proof.
  induction fuel as [|fuel IH]; intros junk1 junk2 stream v; [reflexivity|].
  cbn [read_loop].
  pose proof (extract_double_stream stream (junk1 O) (junk2 O)) as Hs.
  pose proof (extract_double_value stream (junk1 O) (junk2 O)) as Hv.
  destruct (extract_double stream (junk1 O)) as [s1 u1].
  destruct (extract_double stream (junk2 O)) as [s2 u2].
  cbn [fst snd] in *. subst s2. unfold not_.
  destruct (fail s1); [reflexivity|].
  rewrite (Hv eq_refl). apply IH.
Qed.

Lemma read_numbers_junk junk1 junk2 line :
  read_numbers junk1 line = read_numbers junk2 line.
Proof. apply read_loop_junk. Qed.

(** The inner loop on a line that starts with numeric tokens [ts], of
    values [vs], followed by nothing or by a token that starts with no
    number. *)
Lemma read_loop_tokens ts vs :
  Forall2 (fun t v => Spec.parse_token t = Some v) ts vs ->
  forall cs more eof v0 fuel junk,
  words cs = ts ++ more ->
  match more with [] => True | g :: _ => Spec.no_number g = true end ->
  (length cs < fuel)%nat ->
  (eof = true -> cs = []) ->
  read_loop fuel junk (mk_istream cs eof false) v0 = Some (v0 ++ vs).
Proof.
  induction 1 as [|t v ts vs Htv _ IH];
    intros cs more eof v0 fuel junk Hw Hmore Hfuel Heof.
  - rewrite app_nil_r. cbn [app] in Hw.
    destruct fuel as [|fuel]; [lia|]. cbn [read_loop].
    destruct eof.
    { rewrite (Heof eq_refl). reflexivity. }
    destruct more as [|g more].
    + apply words_nil_inv in Hw.
      unfold extract_double. cbn [good rdbuf eofbit failbit negb andb].
      rewrite Hw. reflexivity.
    + destruct (words_cons_inv _ _ _ Hw) as (rest & H1 & H2 & H3 & H4 & _).
      pose proof (extract_double_no_number cs g rest (junk O) H1 H2 H3 H4 Hmore) as Hf.
      destruct (extract_double _ _) as [stream' u']. cbn [fst] in Hf.
      unfold not_. now rewrite Hf.
  - cbn [app] in Hw.
    destruct (words_cons_inv _ _ _ Hw) as (rest & H1 & H2 & H3 & H4 & H5 & H6).
    destruct eof.
    { rewrite (Heof eq_refl) in Hw. discriminate. }
    destruct fuel as [|fuel]; [lia|]. cbn [read_loop].
    rewrite (extract_double_token cs t rest (junk O) v H1 H2 H3 H4 Htv).
    unfold not_. cbn [fail failbit].
    rewrite (IH rest more _ (v0 ++ [v]) fuel (next junk) H5 Hmore).
    + now rewrite <- app_assoc.
    + lia.
    + destruct rest; [reflexivity|discriminate].
Qed.

Lemma read_numbers_tokens junk line ts vs more :
  words line = ts ++ more ->
  Forall2 (fun t v => Spec.parse_token t = Some v) ts vs ->
  match more with [] => True | g :: _ => Spec.no_number g = true end ->
  read_numbers junk line = Some vs.
Proof.
  intros Hw Hts Hmore. unfold read_numbers, open.
  apply (read_loop_tokens ts vs Hts line more false [] _ junk Hw Hmore).
  - lia.
  - discriminate.
Qed.

(** ** The body of the outer loop *)

(** The body always completes, and what it writes depends on [s] only. *)
Lemma process_line_emitted junk line out :
  process_line junk line out = Some (out ++ Spec.emitted line).
Proof.
  unfold Spec.emitted, process_line.
  rewrite (read_numbers_junk junk (fun _ => Binary64.zero)).
  destruct (read_numbers_total (fun _ => Binary64.zero) line) as [v ->].
  destruct v as [|x v]; [now rewrite app_nil_r|].
  unfold endl, put_double. cbn [app]. now rewrite <- app_assoc.
Qed.

Lemma emitted_numbers line v :
  read_numbers (fun _ => Binary64.zero) line = Some v ->
  Spec.emitted line =
  match v with
  | [] => []
  | _ => Spec.output_line (accumulate v Binary64.zero sum_squares)
  end.
Proof.
  intros H. unfold Spec.emitted, process_line. rewrite H.
  destruct v; reflexivity.
Qed.

Lemma getline_line l rest s0 :
  is_line l ->
  getline (open (l ++ newline :: rest)) s0 = (open rest, l).
Proof.
  intros Hl. unfold getline, open. cbn [good eofbit failbit negb andb rdbuf].
  now rewrite until_newline_line.
Qed.

Lemma getline_last l s0 :
  is_line l ->
  getline (open l) s0 =
  (mk_istream [] true (match l with [] => true | _ => false end), l).
Proof.
  intros Hl. unfold getline, open. cbn [good eofbit failbit negb andb rdbuf].
  now rewrite until_newline_last.
Qed.

(** ** The outer loop *)

(** A newline-terminated line costs one pass, which writes what the line
    yields and leaves [cin] good at the next line. *)
Lemma main_loop_line fuel junk l rest s0 out :
  is_line l ->
  main_loop (S fuel) junk (mk_state (open (l ++ newline :: rest)) s0 out) =
  main_loop fuel (next junk) (mk_state (open rest) l (out ++ Spec.emitted l)).
Proof.
  intros Hl. cbn [main_loop]. unfold loop_body. cbn [cin s cout].
  rewrite getline_line by assumption.
  now rewrite process_line_emitted.
Qed.

Lemma main_loop_lines ls : Forall is_line ls ->
  forall fuel junk tail s0 out, exists junk' s',
  main_loop (length ls + fuel) junk (mk_state (open (unlines ls ++ tail)) s0 out) =
  main_loop fuel junk'
    (mk_state (open tail) s' (out ++ concat (map Spec.emitted ls))).
Proof.
  induction 1 as [|l ls Hl _ IH]; intros fuel junk tail s0 out.
  - exists junk, s0. cbn. now rewrite app_nil_r.
  - unfold unlines in *. cbn [map concat length Nat.add].
    rewrite <- !app_assoc. cbn [app].
    rewrite main_loop_line by assumption.
    destruct (IH fuel (next junk) tail l (out ++ Spec.emitted l)) as (junk' & s' & ->).
    exists junk', s'. now rewrite <- app_assoc.
Qed.

(** At the end of an input that ends with a newline (or is empty), one
    more pass is made: [getline] erases [s], finds nothing and fails;
    the pass writes nothing, and the loop ends. *)
Lemma main_loop_eof fuel junk s0 out :
  main_loop (2 + fuel) junk (mk_state (open []) s0 out) =
  Some (mk_state (mk_istream [] true true) [] out).
Proof. reflexivity. Qed.

(** A last line without newline costs two passes.  The first reads it,
    reaching the end of the input: [eofbit] is set but not [failbit], so
    [while (cin)] goes on.  In the second, [getline] fails on the sentry
    and leaves [s] as it was: the line is processed again. *)
Lemma main_loop_partial fuel junk l s0 out :
  is_line l -> l <> [] ->
  main_loop (3 + fuel) junk (mk_state (open l) s0 out) =
  Some (mk_state (mk_istream [] true true) l
          ((out ++ Spec.emitted l) ++ Spec.emitted l)).
Proof.
  intros Hl Hne. cbn [Nat.add main_loop]. unfold loop_body. cbn [cin s cout to_bool fail failbit open negb].
  rewrite (getline_last l s0 Hl).
  destruct l as [|c l]; [congruence|].
  rewrite process_line_emitted. cbn [cin s cout to_bool fail failbit negb].
  unfold getline. cbn [good eofbit failbit negb andb set_failbit rdbuf].
  rewrite process_line_emitted. reflexivity.
Qed.

(** ** [main] on every input *)

Lemma main_loop_terminated ls junk :
  Forall is_line ls ->
  main_loop (length (unlines ls) + 2) junk (mk_state (open (unlines ls)) [] []) =
  Some (mk_state (mk_istream [] true true) [] (concat (map Spec.emitted ls))).
Proof.
  intros Hls. pose proof (unlines_length ls) as Hlen.
  replace (length (unlines ls) + 2)%nat
    with (length ls + (2 + (length (unlines ls) - length ls)))%nat by lia.
  destruct (main_loop_lines ls Hls (2 + (length (unlines ls) - length ls))
              junk [] [] []) as (junk' & s' & E).
  rewrite app_nil_r in E. rewrite E. apply main_loop_eof.
Qed.

Lemma main_loop_unterminated ls l junk :
  Forall is_line ls -> is_line l -> l <> [] ->
  main_loop (length (unlines ls ++ l) + 2) junk
    (mk_state (open (unlines ls ++ l)) [] []) =
  Some (mk_state (mk_istream [] true true) l
          ((concat (map Spec.emitted ls) ++ Spec.emitted l) ++ Spec.emitted l)).
Proof.
  intros Hls Hl Hne. pose proof (unlines_length ls) as Hlen.
  assert (1 <= length l)%nat by (destruct l; [congruence|cbn; lia]).
  rewrite length_app.
  replace (length (unlines ls) + length l + 2)%nat
    with (length ls + (3 + (length (unlines ls) + length l - 1 - length ls)))%nat
    by lia.
  destruct (main_loop_lines ls Hls
              (3 + (length (unlines ls) + length l - 1 - length ls))
              junk l [] []) as (junk' & s' & E).
  rewrite E. apply main_loop_partial; assumption.
Qed.

(** Lines that all end with a newline: one output per line that yields
    numbers, in order. *)
Lemma main_terminated ls junk :
  Forall is_line ls ->
  main junk (unlines ls) = Some (concat (map Spec.emitted ls), 0%Z).
Proof.
  intros Hls. unfold main. now rewrite main_loop_terminated.
Qed.

(** A last line without newline: what it yields is written twice. *)
Lemma main_unterminated ls l junk :
  Forall is_line ls -> is_line l -> l <> [] ->
  main junk (unlines ls ++ l) =
  Some ((concat (map Spec.emitted ls) ++ Spec.emitted l) ++ Spec.emitted l, 0%Z).
Proof.
  intros Hls Hl Hne. unfold main. now rewrite main_loop_unterminated.
Qed.

(** On every input: [main] returns 0, having written [Spec.written]. *)
Lemma main_written ls l junk :
  Forall is_line ls -> is_line l ->
  main junk (unlines ls ++ l) = Some (Spec.written ls l, 0%Z).
Proof.
  intros Hls Hl. unfold Spec.written. destruct l as [|c l].
  - rewrite !app_nil_r. now apply main_terminated.
  - rewrite main_unterminated by (assumption || discriminate).
    now rewrite <- app_assoc.
Qed.

(** A newline-terminated line in the middle of an input: what it yields
    comes between what the lines before it yield and what [main] writes
    on the rest. *)
Lemma main_line_insert junk pre line tail :
  Forall is_line pre -> is_line line ->
  exists after,
    main junk tail = Some (after, 0%Z) /\
    main junk (unlines pre ++ line ++ newline :: tail) =
    Some (concat (map Spec.emitted pre) ++ Spec.emitted line ++ after, 0%Z).
Proof.
  intros Hpre Hline.
  destruct (split_lines tail) as (ls & l & -> & Hls & Hl).
  exists (Spec.written ls l). split; [now apply main_written|].
  replace (unlines pre ++ line ++ newline :: unlines ls ++ l)
    with (unlines (pre ++ line :: ls) ++ l).
  - rewrite main_written; [|apply Forall_app; split; [|constructor]|]; try assumption.
    unfold Spec.written. rewrite map_app, concat_app. cbn [map concat].
    now rewrite <- !app_assoc.
  - rewrite unlines_app. unfold unlines at 2. cbn [map concat].
    fold (unlines ls). now rewrite <- !app_assoc.
Qed.

(** ** The fold *)

Lemma accumulate_sum_squares v init :
  accumulate v init sum_squares = fold_left Spec.combine v init.
Proof.
  revert init. induction v as [|x v IH]; intros init; [reflexivity|].
  cbn [accumulate fold_left]. apply IH.
Qed.

Lemma numeric_tokens_Forall2 ts : forall vs,
  map Spec.numeric_value ts = map Some vs ->
  Forall2 (fun t v => Spec.parse_token t = Some v) ts vs.
Proof.
  induction ts as [|t ts IH]; intros [|v vs] H; try discriminate.
  - constructor.
  - cbn [map] in H. injection H as Ht Hts. constructor; auto.
    now apply StrtodFacts.numeric_value_parse_token.
Qed.

(** What a line yields, from the numbers read on it. *)
Lemma emitted_values junk line v :
  read_numbers junk line = Some v ->
  Spec.emitted line =
  match v with
  | [] => []
  | _ => Spec.output_line (Spec.sum_of_squares v)
  end.
Proof.
  intros H. rewrite (read_numbers_junk junk (fun _ => Binary64.zero)) in H.
  rewrite (emitted_numbers line v H).
  destruct v; [reflexivity|].
  unfold Spec.sum_of_squares. now rewrite accumulate_sum_squares.
Qed.

(** ** Counting output lines *)

Lemma count_lines_emitted l :
  Text.count_lines (Spec.emitted l) = length (Spec.qualifying [l]).
Proof.
  destruct (read_numbers_total (fun _ => Binary64.zero) l) as [v Hv].
  rewrite (emitted_values _ _ _ Hv).
  unfold Spec.qualifying. cbn [filter]. rewrite Hv.
  destruct v; [reflexivity|].
  apply PrintfFacts.count_lines_output_line.
Qed.

(** When every line ends with a newline, there are as many output lines
    as input lines that hold a number. *)
Lemma count_lines_terminated ls :
  Text.count_lines (concat (map Spec.emitted ls)) = length (Spec.qualifying ls).
Proof.
  induction ls as [|l ls IH]; [reflexivity|].
  cbn [map concat]. rewrite PrintfFacts.count_lines_app, IH, count_lines_emitted.
  unfold Spec.qualifying. cbn [filter].
  destruct (read_numbers _ l) as [[|? ?]|]; reflexivity.
Qed.

(** Newline-terminated lines at the start of an input: what they yield
    comes before what [main] writes on the rest. *)
Lemma main_prefix junk pre tail :
  Forall is_line pre ->
  exists after,
    main junk tail = Some (after, 0%Z) /\
    main junk (unlines pre ++ tail) =
    Some (concat (map Spec.emitted pre) ++ after, 0%Z).
Proof.
  intros Hpre.
  destruct (split_lines tail) as (ls & l & -> & Hls & Hl).
  exists (Spec.written ls l). split; [now apply main_written|].
  rewrite app_assoc, <- unlines_app.
  rewrite main_written; [|apply Forall_app; split|]; try assumption.
  unfold Spec.written. rewrite map_app, concat_app.
  now rewrite <- !app_assoc.
Qed.

End FooFacts.

(* ===================================================================== *)
(** * White space does not matter *)

Module LayoutFacts.
Import Ctype Std Text Foo StdFacts TextFacts FooFacts Layout.

Lemma extract_float_loop_solid n :
  forall cs, (length cs <= n)%nat -> solid cs ->
  forall fm fd fs x, solid (snd (extract_float_loop fm fd fs x cs)).
Proof.
  induction n as [|n IH]; intros cs Hlen Hcs fm fd fs x.
  - destruct cs; [constructor|cbn in Hlen; lia].
  - destruct cs as [|a cs]; [constructor|].
    cbn in Hlen. inversion Hcs as [|? ? Ha Hcs']; subst.
    cbn [extract_float_loop].
    destruct (isdigit a); [apply IH; [lia|assumption]|].
    destruct (Ascii.eqb a "." && negb fd && negb fs);
      [apply IH; [lia|assumption]|].
    destruct (is_exp a && negb fs && fm); [|exact Hcs].
    destruct cs as [|b cs]; [constructor|].
    inversion Hcs' as [|? ? Hb Hcs'']; subst. cbn in Hlen.
    destruct (is_sign b).
    + apply IH; [lia|assumption].
    + apply IH; [cbn; lia|assumption].
Qed.

Lemma extract_float_solid t : solid t -> solid (snd (extract_float t)).
Proof.
  intros Ht. unfold extract_float.
  assert (Hgen : forall sign cs1, solid cs1 ->
    solid (snd (extract_float_loop
                  (negb (length (skip_zeros cs1) =? length cs1)%nat)
                  false false
                  (sign ++ (if negb (length (skip_zeros cs1) =? length cs1)%nat
                            then ["0"] else []))
                  (skip_zeros cs1)))).
  { intros sign cs1 H.
    apply (extract_float_loop_solid (length (skip_zeros cs1)));
      [lia|now apply skip_zeros_solid]. }
  destruct t as [|a t]; [apply (Hgen [] []); constructor|].
  inversion Ht as [|? ? Ha Ht']; subst.
  destruct (is_sign a); [apply (Hgen [a] t Ht')|apply (Hgen [] (a :: t) Ht)].
Qed.

(** [>>] on a run of bytes without white space, whatever follows it. *)
Lemma extract_double_local cs t rest u :
  skipws cs = t ++ rest -> t <> [] -> solid t -> token_end rest ->
  extract_double (mk_istream cs false false) u =
  (mk_istream (snd (extract_float t) ++ rest)
     (match snd (extract_float t) ++ rest with [] => true | _ => false end)
     (snd (convert_to_v (fst (extract_float t)))),
   fst (convert_to_v (fst (extract_float t)))).
Proof.
  intros Hs Hne Ht Hr.
  unfold extract_double. cbn [good rdbuf eofbit failbit negb andb].
  rewrite Hs. destruct t as [|a t]; [congruence|]. cbn [app].
  change (a :: t ++ rest) with ((a :: t) ++ rest).
  rewrite (extract_float_token (a :: t) rest Ht Hr).
  destruct (extract_float (a :: t)) as [xtrc r]. cbn [fst snd].
  destruct (convert_to_v xtrc) as [v err]. reflexivity.
Qed.

Lemma same_words_ahead r1 r2 : words r1 = words r2 -> same_ahead r1 r2.
Proof.
  intros H. destruct (words r1) as [|t ts] eqn:E1.
  - left. split; apply words_nil_inv; congruence.
  - right. symmetry in H.
    destruct (words_cons_inv _ _ _ E1) as (q1 & A1 & A2 & A3 & A4 & A5 & _).
    destruct (words_cons_inv _ _ _ H) as (q2 & B1 & _ & _ & B4 & B5 & _).
    exists t, q1, q2. repeat split; auto. congruence.
Qed.

Lemma read_loop_same n :
  forall cs1 cs2, (length cs1 <= n)%nat -> same_ahead cs1 cs2 ->
  forall e1 e2 f1 f2 j1 j2 v,
  (e1 = true -> cs1 = []) -> (e2 = true -> cs2 = []) ->
  (length cs1 < f1)%nat -> (length cs2 < f2)%nat ->
  read_loop f1 j1 (mk_istream cs1 e1 false) v =
  read_loop f2 j2 (mk_istream cs2 e2 false) v.
Proof.
  induction n as [|n IH];
    intros cs1 cs2 Hlen Hsame e1 e2 f1 f2 j1 j2 v He1 He2 Hf1 Hf2;
    (destruct f1 as [|f1]; [lia|]); (destruct f2 as [|f2]; [lia|]);
    cbn [read_loop].
  - destruct cs1; [|cbn in Hlen; lia].
    destruct Hsame as [[_ H2]|(t & r1 & r2 & Hne & _ & _ & _ & H1 & _)].
    2:{ cbn in H1. destruct t; [congruence|discriminate]. }
    assert (F1 : fail (fst (extract_double (mk_istream [] e1 false) (j1 O))) = true)
      by (destruct e1; reflexivity).
    assert (F2 : fail (fst (extract_double (mk_istream cs2 e2 false) (j2 O))) = true).
    { destruct e2; [reflexivity|].
      unfold extract_double. cbn [good rdbuf eofbit failbit negb andb].
      now rewrite H2. }
    destruct (extract_double _ (j1 O)), (extract_double _ (j2 O)).
    cbn [fst] in *. unfold not_. now rewrite F1, F2.
  - destruct Hsame as [[H1 H2]|(t & r1 & r2 & Hne & Ht & Hr1 & Hr2 & H1 & H2 & Hw)].
    + assert (F1 : fail (fst (extract_double (mk_istream cs1 e1 false) (j1 O))) = true).
      { destruct e1; [reflexivity|].
        unfold extract_double. cbn [good rdbuf eofbit failbit negb andb].
        now rewrite H1. }
      assert (F2 : fail (fst (extract_double (mk_istream cs2 e2 false) (j2 O))) = true).
      { destruct e2; [reflexivity|].
        unfold extract_double. cbn [good rdbuf eofbit failbit negb andb].
        now rewrite H2. }
      destruct (extract_double _ (j1 O)), (extract_double _ (j2 O)).
      cbn [fst] in *. unfold not_. now rewrite F1, F2.
    + assert (E1 : e1 = false).
      { destruct e1; [|reflexivity]. rewrite (He1 eq_refl) in H1. cbn in H1.
        destruct t; [congruence|discriminate]. }
      assert (E2 : e2 = false).
      { destruct e2; [|reflexivity]. rewrite (He2 eq_refl) in H2. cbn in H2.
        destruct t; [congruence|discriminate]. }
      subst e1 e2.
      rewrite (extract_double_local cs1 t r1 (j1 O) H1 Hne Ht Hr1).
      rewrite (extract_double_local cs2 t r2 (j2 O) H2 Hne Ht Hr2).
      pose proof (extract_float_length t) as Hl.
      pose proof (extract_float_solid t Ht) as Hsol.
      pose proof (skipws_length cs1) as Hk1.
      pose proof (skipws_length cs2) as Hk2.
      rewrite H1 in Hk1. rewrite H2 in Hk2. rewrite length_app in Hk1, Hk2.
      destruct (extract_float t) as [xtrc r]. cbn [fst snd] in *.
      destruct xtrc as [|x0 xtrc].
      { rewrite convert_to_v_nil. reflexivity. }
      destruct (convert_to_v (x0 :: xtrc)) as [val err]. cbn [fst snd length] in *.
      unfold not_. cbn [fail failbit]. destruct err; [reflexivity|].
      apply IH.
      * rewrite length_app. cbn in Hlen. lia.
      * destruct r as [|c r].
        -- cbn [app]. now apply same_words_ahead.
        -- right. inversion Hsol as [|? ? Hc Hr']; subst.
           exists (c :: r), r1, r2. repeat split; auto; try discriminate.
           ++ cbn [app]. now apply skipws_solid.
           ++ cbn [app]. now apply skipws_solid.
      * destruct (r ++ r1); [reflexivity|discriminate].
      * destruct (r ++ r2); [reflexivity|discriminate].
      * rewrite length_app. lia.
      * rewrite length_app. lia.
Qed.

Lemma read_numbers_same j1 j2 l1 l2 :
  words l1 = words l2 -> read_numbers j1 l1 = read_numbers j2 l2.
Proof.
  intros H. unfold read_numbers, open.
  apply (read_loop_same (length l1)); auto using same_words_ahead; try lia;
    discriminate.
Qed.

End LayoutFacts.

(* ===================================================================== *)
(** * Finite values, sums that are not negative *)

Module SignFacts.
Import Ctype Std Text Foo StdFacts TextFacts FooFacts Sign.

Lemma shr_1_nonneg mrs : (0 <= shr_m mrs)%Z -> (0 <= shr_m (shr_1 mrs))%Z.
Proof.
  destruct mrs as [m r s]. cbn [shr_m].
  destruct m as [|[p|p|]|p]; cbn; lia.
Qed.

Lemma iter_shr_1_nonneg p : forall mrs,
  (0 <= shr_m mrs)%Z -> (0 <= shr_m (iter_pos shr_1 p mrs))%Z.
Proof.
  induction p as [p IH|p IH|]; intros mrs H; cbn [iter_pos].
  - apply IH, IH, shr_1_nonneg, H.
  - apply IH, IH, H.
  - apply shr_1_nonneg, H.
Qed.

Lemma shr_fexp_nonneg m e l :
  (0 <= m)%Z ->
  (0 <= shr_m (fst (shr_fexp Binary64.prec Binary64.emax m e l)))%Z.
Proof.
  intros H. unfold shr_fexp, shr.
  assert (H0 : (0 <= shr_m (shr_record_of_loc m l))%Z)
    by (destruct l as [|[| |]]; exact H).
  destruct (_ - e)%Z; cbn [fst]; auto using iter_shr_1_nonneg.
Qed.

Lemma round_nearest_even_nonneg m l :
  (0 <= m)%Z -> (0 <= round_nearest_even m l)%Z.
Proof.
  intros H. destruct l as [|[| |]]; cbn; try destruct (Z.even m); lia.
Qed.

(** Rounding gives a number of the sign asked for. *)
Lemma binary_round_aux_signed sx mx ex lx :
  (0 <= mx)%Z ->
  signed sx (binary_round_aux Binary64.prec Binary64.emax sx mx ex lx).
Proof.
  intros H. unfold binary_round_aux.
  pose proof (shr_fexp_nonneg mx ex lx H) as H1.
  destruct (shr_fexp Binary64.prec Binary64.emax mx ex lx) as [mrs' e'].
  cbn [fst] in H1.
  pose proof (shr_fexp_nonneg _ e' loc_Exact
                (round_nearest_even_nonneg _ (loc_of_shr_record mrs') H1)) as H2.
  destruct (shr_fexp Binary64.prec Binary64.emax _ e' loc_Exact) as [mrs'' e''].
  cbn [fst] in H2.
  destruct (shr_m mrs'') as [|m|m]; [reflexivity| |lia].
  destruct (e'' <=? _)%Z; reflexivity.
Qed.

Lemma of_ratio_signed neg n d :
  (0 <= n)%Z -> (0 < d)%Z -> signed neg (Binary64.of_ratio neg n d).
Proof.
  intros Hn Hd. unfold Binary64.of_ratio.
  destruct n as [|n|n]; [reflexivity| |lia].
  unfold SFdiv_core_binary.
  set (s := (_ - _ - _)%Z).
  set (m' := match s with Z0 => _ | Zpos _ => _ | Zneg _ => _ end).
  assert (Hm : (0 <= m')%Z).
  { subst m'. destruct s; [lia| |lia]. apply Z.shiftl_nonneg. lia. }
  pose proof (Z_div_mod m' d ltac:(lia)) as Hdm.
  destruct (Z.div_eucl m' d) as [q r].
  apply binary_round_aux_signed.
  destruct Hdm as [Heq Hr]. nia.
Qed.

Lemma of_decimal_signed neg m e :
  (0 <= m)%Z -> signed neg (Binary64.of_decimal neg m e).
Proof.
  intros Hm. unfold Binary64.of_decimal.
  destruct (0 <=? e)%Z eqn:E.
  - apply of_ratio_signed; [|lia]. apply Z.mul_nonneg_nonneg; [lia|].
    apply Z.pow_nonneg. lia.
  - apply Z.leb_gt in E. apply of_ratio_signed; [lia|].
    apply Z.pow_pos_nonneg; lia.
Qed.

Lemma digit_value_nonneg c : isdigit c = true -> (0 <= digit_value c)%Z.
Proof.
  unfold isdigit, digit_value. intros H.
  apply andb_true_iff in H as [H _]. apply Nat.leb_le in H. lia.
Qed.

Lemma digits_value_nonneg ds :
  Literal.all_digits ds -> (0 <= digits_value ds)%Z.
Proof.
  unfold digits_value. intros H.
  assert (G : forall acc, (0 <= acc)%Z ->
    (0 <= fold_left (fun a c => (10 * a + digit_value c)%Z) ds acc)%Z).
  { induction H as [|c ds Hc _ IH]; intros acc Ha; cbn [fold_left]; [exact Ha|].
    apply IH. pose proof (digit_value_nonneg c Hc). lia. }
  apply G. lia.
Qed.

(** What [strtod] returns is a number, never a NaN. *)
Lemma strtod_all_signed s x :
  Strtod.strtod_all s = Some x -> exists neg, signed neg x.
Proof.
  intros H.
  destruct (StrtodFacts.strtod_all_inv s x H) as (l & Hwf & _ & <-).
  destruct Hwf as (_ & Hip & Hfp & _).
  exists (Literal.is_minus (Literal.sign l)). unfold Literal.value.
  apply of_decimal_signed, digits_value_nonneg.
  apply Forall_app. now split.
Qed.

(** A value that [>>] stores without failing is finite. *)
Lemma convert_to_v_finite xtrc :
  snd (convert_to_v xtrc) = false -> finite (fst (convert_to_v xtrc)) = true.
Proof.
  unfold convert_to_v.
  destruct (Strtod.strtod_all xtrc) as [x|] eqn:E; [|discriminate].
  destruct (strtod_all_signed _ _ E) as [neg Hs].
  destruct x; cbn in *; try discriminate; try reflexivity. contradiction.
Qed.

Lemma extract_double_finite ins u :
  fail (fst (extract_double ins u)) = false ->
  finite (snd (extract_double ins u)) = true.
Proof.
  unfold extract_double. destruct (good ins); [|cbn; discriminate].
  destruct (skipws (rdbuf ins)); [cbn; discriminate|].
  destruct (extract_float _) as [xtrc rest].
  pose proof (convert_to_v_finite xtrc) as H.
  destruct (convert_to_v xtrc) as [v err]. exact H.
Qed.

Lemma read_loop_finite fuel : forall junk stream v0 v,
  read_loop fuel junk stream v0 = Some v ->
  Forall (fun x => finite x = true) v0 ->
  Forall (fun x => finite x = true) v.
Proof.
  induction fuel as [|fuel IH]; intros junk stream v0 v; [discriminate|].
  cbn [read_loop].
  pose proof (extract_double_finite stream (junk O)) as Hf.
  destruct (extract_double stream (junk O)) as [stream' u'].
  cbn [fst snd] in Hf. unfold not_. destruct (fail stream').
  - intros [= <-]. auto.
  - intros H H0. apply (IH _ _ _ _ H).
    apply Forall_app. split; [assumption|]. constructor; auto.
Qed.

(** The vector never holds more numbers than the line has bytes. *)
Lemma read_loop_length fuel : forall junk stream v0 v,
  read_loop fuel junk stream v0 = Some v ->
  (length v <= length v0 + length (rdbuf stream))%nat.
Proof.
  induction fuel as [|fuel IH]; intros junk stream v0 v; [discriminate|].
  cbn [read_loop].
  pose proof (extract_double_consumes stream (junk O)) as Hc.
  destruct (extract_double stream (junk O)) as [stream' u'].
  cbn [fst] in Hc. unfold not_. destruct (fail stream').
  - intros [= <-]. lia.
  - intros H. apply IH in H. rewrite length_app in H. cbn [length] in H.
    specialize (Hc eq_refl). lia.
Qed.

(** ** Squares and their sums *)

Lemma mul_self_nonnegative u :
  u <> S754_nan -> nonnegative (Binary64.mul u u) = true.
Proof.
  intros Hu. destruct u as [s|s| |s m e]; try congruence.
  - now destruct s.
  - now destruct s.
  - unfold Binary64.mul, SFmul.
    pose proof (binary_round_aux_signed (xorb s s) (Zpos (m * m)) (e + e)
                  loc_Exact ltac:(lia)) as H.
    rewrite xorb_nilpotent in *. cbn [Binary64.prec Binary64.emax] in *.
    destruct (binary_round_aux _ _ _ _ _ _) as [s'|s'| |s' ? ?];
      cbn in H; try contradiction; now subst.
Qed.

Lemma add_nonnegative x y :
  nonnegative x = true -> nonnegative y = true ->
  nonnegative (Binary64.add x y) = true.
Proof.
  destruct x as [[|]|[|]| |[|] mx ex]; try discriminate;
  destruct y as [[|]|[|]| |[|] my ey]; try discriminate; intros _ _;
    try reflexivity.
  unfold Binary64.add, SFadd. cbn [cond_Zopp].
  set (a := fst (shl_align mx ex (Z.min ex ey))).
  set (b := fst (shl_align my ey (Z.min ex ey))).
  change (Zpos a + Zpos b)%Z with (Zpos (a + b)).
  unfold binary_normalize, binary_round.
  destruct (shl_align (a + b) _ _) as [mz ez].
  pose proof (binary_round_aux_signed false (Zpos mz) ez loc_Exact ltac:(lia)) as H.
  destruct (binary_round_aux _ _ _ _ _ _) as [s'|s'| |s' ? ?];
    cbn in H; try contradiction; now subst.
Qed.

Lemma finite_not_nan x : finite x = true -> x <> S754_nan.
Proof. intros H ->. discriminate. Qed.

Lemma accumulate_nonnegative v : forall acc,
  nonnegative acc = true -> Forall (fun x => finite x = true) v ->
  nonnegative (accumulate v acc sum_squares) = true.
Proof.
  induction v as [|u v IH]; intros acc Ha Hv; [exact Ha|].
  inversion Hv as [|? ? Hu Hv']; subst. cbn [accumulate].
  apply IH; [|assumption]. unfold sum_squares.
  apply add_nonnegative; [assumption|].
  apply mul_self_nonnegative, finite_not_nan, Hu.
Qed.

End SignFacts.

(* ===================================================================== *)
(** * Facts about the Python helpers *)

Module PyFacts.
Import Py.
Import StdFacts.

(** ** Characters *)

Lemma lower_char_idempotent c : lower_char (lower_char c) = lower_char c.
Proof. ascii_cases c. Qed.

Lemma lower_char_punctuation c :
  is_punctuation (lower_char c) = is_punctuation c.
Proof. ascii_cases c. Qed.

Lemma lower_char_isspace c : isspace (lower_char c) = isspace c.
Proof. ascii_cases c. Qed.

Lemma c_space_py_space c : Ctype.isspace c = true -> isspace c = true.
Proof. ascii_cases c. Qed.

Lemma newline_py_space : isspace Ctype.newline = true.
Proof. reflexivity. Qed.

(** The letters that are their own lower case are worth at most 25 in
    [table], everything else that is its own lower case is not in it. *)
Lemma table_get_lower c :
  lower_char c = c -> (0 <= get table c 0 <= 25)%Z.
Proof. ascii_cases c. Qed.

(** ** Splitting *)

Section Split.
Variable sp : ascii -> bool.

Lemma split_by_space c s : sp c = true -> split_by sp (c :: s) = split_by sp s.
Proof. intros H. cbn [split_by]. now rewrite H. Qed.

Lemma split_by_token t : t <> [] -> sp_solid sp t ->
  forall rest, sp_end sp rest -> split_by sp (t ++ rest) = t :: split_by sp rest.
Proof.
  intros Hne Ht. induction Ht as [|a t Ha Ht IH]; [congruence|].
  intros rest Hr. cbn [app split_by]. rewrite Ha.
  destruct t as [|b t].
  - cbn [app]. destruct rest as [|d rest]; [reflexivity|].
    cbn in Hr. now rewrite Hr.
  - inversion Ht as [|? ? Hb _]; subst. cbn [app]. rewrite Hb.
    change (b :: t ++ rest) with ((b :: t) ++ rest).
    now rewrite (IH ltac:(discriminate) rest Hr).
Qed.

Lemma split_by_blank ws : sp_blank sp ws -> split_by sp ws = [].
Proof.
  induction 1 as [|c ws Hc _ IH]; [reflexivity|]. now rewrite split_by_space.
Qed.

Lemma split_by_nil_blank s : split_by sp s = [] -> sp_blank sp s.
Proof.
  induction s as [|c s IH]; [constructor|].
  cbn [split_by]. destruct (sp c) eqn:Hc.
  - intros H. constructor; [exact Hc|exact (IH H)].
  - destruct s as [|d s]; [discriminate|].
    destruct (sp d); [discriminate|].
    destruct (split_by sp (d :: s)); discriminate.
Qed.

Lemma split_by_app_blank ws : sp_blank sp ws ->
  forall s, split_by sp (s ++ ws) = split_by sp s.
Proof.
  intros Hws. induction s as [|c s IH].
  - cbn [app]. now rewrite split_by_blank.
  - cbn [app split_by]. destruct (sp c); [exact IH|].
    destruct s as [|d s].
    + cbn [app]. destruct Hws as [|w ws Hw Hws]; [reflexivity|].
      rewrite Hw. rewrite split_by_space by assumption.
      now rewrite split_by_blank.
    + cbn [app] in *. destruct (sp d); now rewrite IH.
Qed.

(** No piece is empty, and no piece holds a separator. *)
Lemma split_by_pieces s :
  Forall (fun t => t <> [] /\ sp_solid sp t) (split_by sp s).
Proof.
  induction s as [|c s IH]; [constructor|].
  cbn [split_by]. destruct (sp c) eqn:Hc; [exact IH|].
  assert (H1 : [c] <> [] /\ sp_solid sp [c])
    by (split; [discriminate|now repeat constructor]).
  destruct s as [|d s]; [now repeat constructor|].
  destruct (sp d); [now constructor|].
  destruct (split_by sp (d :: s)) as [|w ws]; [now repeat constructor|].
  inversion IH as [|? ? [Hw1 Hw2] Hws]; subst.
  constructor; [|assumption]. split; [discriminate|now constructor].
Qed.

(** The pieces are made of characters of the string. *)
Lemma split_by_chars (P : ascii -> Prop) s :
  Forall P s -> Forall (Forall P) (split_by sp s).
Proof.
  induction 1 as [|c s Hc Hs IH]; [constructor|].
  cbn [split_by]. destruct (sp c); [exact IH|].
  destruct s as [|d s]; [now repeat constructor|].
  destruct (sp d); [constructor; [now repeat constructor|assumption]|].
  destruct (split_by sp (d :: s)) as [|w ws]; [now repeat constructor|].
  inversion IH; subst. constructor; [now constructor|assumption].
Qed.

Lemma split_by_join ts : forall c,
  sp c = true ->
  Forall (fun t => t <> [] /\ sp_solid sp t) ts ->
  split_by sp (join [c] ts) = ts.
Proof.
  intros c Hc. induction 1 as [|t ts [Hne Ht] Hts IH]; [reflexivity|].
  destruct ts as [|t2 ts].
  - cbn [join]. rewrite <- (app_nil_r t) at 1.
    now rewrite split_by_token.
  - change (join [c] (t :: t2 :: ts)) with (t ++ c :: join [c] (t2 :: ts)).
    rewrite split_by_token by assumption.
    rewrite split_by_space by assumption. now rewrite IH.
Qed.

(** A separator between two strings: the pieces of the first, then those
    of the second. *)
Lemma split_by_app_sep c b : sp c = true ->
  forall a, split_by sp (a ++ c :: b) = split_by sp a ++ split_by sp b.
Proof.
  intros Hc. induction a as [|x a IH].
  - cbn [app]. now rewrite split_by_space.
  - cbn [app split_by]. destruct (sp x); [exact IH|].
    destruct a as [|d a].
    + cbn [app]. rewrite Hc. now rewrite split_by_space.
    + cbn [app] in *. destruct (sp d) eqn:Hd; [now rewrite IH|].
      rewrite IH.
      destruct (split_by sp (d :: a)) as [|w ws] eqn:E; [|reflexivity].
      apply split_by_nil_blank in E. inversion E; congruence.
Qed.

End Split.

Lemma split_by_ext sp1 sp2 s :
  Forall (fun c => sp1 c = sp2 c) s -> split_by sp1 s = split_by sp2 s.
Proof.
  induction 1 as [|c s Hc Hs IH]; [reflexivity|].
  cbn [split_by]. rewrite Hc, IH. destruct (sp2 c); [reflexivity|].
  destruct Hs as [|d s Hd Hs]; [reflexivity|]. now rewrite Hd.
Qed.

Lemma words_split_by s : Text.words s = split_by Ctype.isspace s.
Proof.
  induction s as [|c s IH]; [reflexivity|].
  cbn [Text.words split_by]. rewrite IH. reflexivity.
Qed.

(** ** Stripping *)

Lemma lstrip_spec s :
  exists ws, s = ws ++ lstrip s /\ sp_blank isspace ws.
Proof.
  induction s as [|c s (ws & E & Hws)]; [exists []; split; [reflexivity|constructor]|].
  cbn [lstrip]. destruct (isspace c) eqn:Hc.
  - exists (c :: ws). split; [cbn; now rewrite <- E|now constructor].
  - exists []. split; [reflexivity|constructor].
Qed.

Lemma split_lstrip s : split (lstrip s) = split s.
Proof.
  unfold split. induction s as [|c s IH]; [reflexivity|].
  cbn [lstrip]. destruct (isspace c) eqn:Hc; [|reflexivity].
  now rewrite split_by_space.
Qed.

(** [strip()] before [split()] changes nothing. *)
Lemma split_strip s : split (strip s) = split s.
Proof.
  unfold strip. rewrite <- (split_lstrip s).
  destruct (lstrip_spec (rev (lstrip s))) as (ws & E & Hws).
  apply (f_equal (@rev ascii)) in E. rewrite rev_involutive, rev_app_distr in E.
  rewrite E at 2. unfold split. rewrite split_by_app_blank; [reflexivity|].
  now apply Forall_rev.
Qed.

Lemma lstrip_chars (P : ascii -> Prop) s : Forall P s -> Forall P (lstrip s).
Proof.
  induction 1 as [|c s Hc Hs IH]; [constructor|].
  cbn [lstrip]. destruct (isspace c); [exact IH|now constructor].
Qed.

Lemma strip_chars (P : ascii -> Prop) s : Forall P s -> Forall P (strip s).
Proof.
  intros H. unfold strip.
  apply Forall_rev, lstrip_chars, Forall_rev, lstrip_chars, H.
Qed.

(** ** [tokenize] *)

Lemma tokenize_split line :
  tokenize line = split (lower (translate punctuation line)).
Proof. unfold tokenize. apply split_strip. Qed.

Lemma translate_lower line :
  translate punctuation (lower line) = lower (translate punctuation line).
Proof.
  unfold lower, translate. induction line as [|c line IH]; [reflexivity|].
  cbn [map filter].
  change (existsb (Ascii.eqb (lower_char c)) punctuation)
    with (is_punctuation (lower_char c)).
  change (existsb (Ascii.eqb c) punctuation) with (is_punctuation c).
  rewrite lower_char_punctuation.
  destruct (is_punctuation c); cbn [negb map]; now rewrite IH.
Qed.

(** The words of two lines are the words of the two lines joined by a
    newline. *)
Lemma tokenize_app_newline l1 l2 :
  tokenize (l1 ++ Ctype.newline :: l2) = tokenize l1 ++ tokenize l2.
Proof.
  rewrite !tokenize_split. unfold translate, lower, split.
  rewrite filter_app, map_app. cbn [filter].
  change (existsb (Ascii.eqb Ctype.newline) punctuation) with false.
  cbn [negb map]. change (lower_char Ctype.newline) with Ctype.newline.
  now apply split_by_app_sep.
Qed.

Lemma lower_idempotent s : lower (lower s) = lower s.
Proof.
  unfold lower. rewrite map_map. apply map_ext. apply lower_char_idempotent.
Qed.

Lemma lower_translate_chars line :
  Forall token_char (lower (translate punctuation line)).
Proof.
  unfold lower, translate, token_char.
  induction line as [|c line IH]; [constructor|].
  cbn [filter].
  change (existsb (Ascii.eqb c) punctuation) with (is_punctuation c).
  destruct (is_punctuation c) eqn:Hc; cbn [negb map]; [exact IH|].
  constructor; [|exact IH]. split.
  - now rewrite lower_char_punctuation.
  - apply lower_char_idempotent.
Qed.

Lemma sum_weights_bounded pick words :
  Forall (fun w => exists c, pick w = Some c /\ lower_char c = c) words ->
  forall acc, exists r,
    sum_weights pick table words acc = Some r /\
    (acc <= r <= acc + 25 * Z.of_nat (length words))%Z.
Proof.
  induction 1 as [|w words (c & Hp & Hc) _ IH]; intros acc.
  - exists acc. split; [reflexivity|cbn; lia].
  - cbn [sum_weights]. rewrite Hp.
    pose proof (table_get_lower c Hc) as Hg.
    destruct (isalpha w).
    + destruct (IH (acc + get table c 0)%Z) as (r & -> & Hr).
      exists r. split; [reflexivity|]. cbn [length]. lia.
    + destruct (IH acc) as (r & -> & Hr).
      exists r. split; [reflexivity|]. cbn [length]. lia.
Qed.

Lemma last_in (P : ascii -> Prop) w : forall c,
  Forall P (c :: w) -> P (last w c).
Proof.
  induction w as [|d w IH]; intros c H; inversion H as [|? ? Hc Hw]; subst.
  - exact Hc.
  - inversion Hw as [|? ? Hd Hw']; subst.
    destruct w as [|a w]; [exact Hd|].
    change (last (d :: a :: w) c) with (last (a :: w) c).
    apply IH. now constructor.
Qed.

Lemma tokenize_pieces line :
  Forall (fun w => w <> [] /\ sp_solid isspace w /\ Forall token_char w)
    (tokenize line).
Proof.
  rewrite tokenize_split. unfold split.
  pose proof (split_by_pieces isspace (lower (translate punctuation line))) as H1.
  pose proof (split_by_chars isspace token_char _
                (lower_translate_chars line)) as H2.
  rewrite Forall_forall in *. intros w Hw.
  destruct (H1 w Hw). repeat split; auto.
Qed.

Lemma get_lower_entries d c :
  lower_char c = c -> get (lower_entries d) c 0 = get d c 0.
Proof.
  intros Hc. unfold lower_entries.
  induction d as [|[k v] d IH]; [reflexivity|].
  cbn [filter fst get].
  destruct (Ascii.eqb_spec c k) as [<-|Hk].
  - rewrite Hc, Ascii.eqb_refl. cbn [get]. now rewrite Ascii.eqb_refl.
  - destruct (Ascii.eqb (lower_char k) k); [|exact IH].
    cbn [get]. destruct (Ascii.eqb_spec c k); [congruence|exact IH].
Qed.

Lemma sum_weights_lower_entries pick d words :
  Forall (fun w => forall c, pick w = Some c -> lower_char c = c) words ->
  forall acc,
  sum_weights pick (lower_entries d) words acc = sum_weights pick d words acc.
Proof.
  induction 1 as [|w words Hw _ IH]; intros acc; [reflexivity|].
  cbn [sum_weights]. destruct (isalpha w); [|apply IH].
  destruct (pick w) as [c|] eqn:E; [|reflexivity].
  rewrite (get_lower_entries d c (Hw c eq_refl)). apply IH.
Qed.

Lemma join_chars (P : ascii -> Prop) c ts :
  P c -> Forall (Forall P) ts -> Forall P (join [c] ts).
Proof.
  intros Hc. induction 1 as [|t ts Ht Hts IH]; [constructor|].
  destruct ts as [|t2 ts]; [exact Ht|].
  change (join [c] (t :: t2 :: ts)) with (t ++ c :: join [c] (t2 :: ts)).
  apply Forall_app. split; [exact Ht|]. now constructor.
Qed.

Lemma is_line_Forall l :
  Forall (fun c => isspace c = false) l -> Text.is_line l.
Proof.
  unfold Text.is_line, Text.no_newline.
  induction 1 as [|c l Hc _ IH]; [reflexivity|].
  cbn [forallb]. rewrite IH, andb_true_r.
  destruct (Ascii.eqb_spec c Ctype.newline) as [->|_]; [discriminate Hc|reflexivity].
Qed.

Lemma py_solid_c_solid t : sp_solid isspace t -> sp_solid Ctype.isspace t.
Proof.
  unfold sp_solid. apply Forall_impl. intros c Hc.
  destruct (Ctype.isspace c) eqn:E; [|reflexivity].
  apply c_space_py_space in E. congruence.
Qed.

Lemma split_pieces_c line :
  Forall (fun t => t <> [] /\ sp_solid Ctype.isspace t) (split line).
Proof.
  pose proof (split_by_pieces isspace line) as H. unfold split.
  eapply Forall_impl; [|exact H]. intros t [H1 H2].
  split; [assumption|now apply py_solid_c_solid].
Qed.

(** The C++ stream finds in a prepared line the pieces that [split()]
    made. *)
Lemma words_join_split line :
  Text.words (join [" "] (split line)) = split line.
Proof.
  rewrite words_split_by.
  apply split_by_join; [reflexivity|apply split_pieces_c].
Qed.

Lemma body_is_line line : Text.is_line (join [" "] (split line)).
Proof.
  assert (H : Forall (fun c => c = " " \/ isspace c = false)
                (join [" "] (split line))).
  { apply join_chars; [now left|].
    pose proof (split_by_pieces isspace line) as Hp. fold (split line) in Hp.
    eapply Forall_impl; [|exact Hp]. intros t [_ Ht].
    eapply Forall_impl; [|exact Ht]. intros c Hc. now right. }
  unfold Text.is_line, Text.no_newline.
  induction H as [|c l Hc _ IH]; [reflexivity|].
  cbn [forallb]. rewrite IH, andb_true_r.
  destruct (Ascii.eqb_spec c Ctype.newline) as [->|_]; [|reflexivity].
  destruct Hc as [Hc|Hc]; discriminate Hc.
Qed.

Lemma prepared_input lines :
  concat (map prepare lines) =
  Text.unlines (map (fun l => join [" "] (split l)) lines).
Proof.
  unfold Text.unlines, prepare. rewrite map_map. reflexivity.
Qed.

Lemma same_spaces_split line :
  same_spaces line = true -> split line = Text.words line.
Proof.
  intros H. rewrite words_split_by. unfold split. apply split_by_ext.
  unfold same_spaces in H. rewrite forallb_forall in H.
  apply Forall_forall. intros c Hc. apply eqb_prop, H, Hc.
Qed.

(** ** Weights of joined lines *)



Lemma is_line_app a b : Text.is_line a -> Text.is_line b -> Text.is_line (a ++ b).
Proof.
  unfold Text.is_line, Text.no_newline. intros Ha Hb.
  rewrite forallb_app. now rewrite Ha, Hb.
Qed.

(** A carriage return at the end of a line is white space like any
    other. *)
Lemma words_carriage_return l : Text.words (l ++ ["013"]) = Text.words l.
Proof.
  rewrite !words_split_by. apply split_by_app_blank. now repeat constructor.
Qed.

End PyFacts.

(* ===================================================================== *)
(** * Lines of an input, first byte of an output *)

Module MoreFacts.
Import Ctype Std Text Foo Printf StdFacts TextFacts FooFacts Layout Sign.

(** ** The lines of an input *)

Lemma lines_of_spec stdin :
  stdin = unlines (fst (lines_of stdin)) ++ snd (lines_of stdin) /\
  Forall is_line (fst (lines_of stdin)) /\ is_line (snd (lines_of stdin)).
Proof.
  induction stdin as [|c cs (E & Hls & Hl)].
  - repeat split. constructor.
  - cbn [lines_of]. destruct (lines_of cs) as [ls l]. cbn [fst snd] in *.
    destruct (Ascii.eqb c newline) eqn:Hc.
    + apply Ascii.eqb_eq in Hc as ->. cbn [fst snd]. repeat split; auto.
      * unfold unlines in *. cbn [map concat app]. now rewrite <- E.
      * constructor; [reflexivity|assumption].
    + destruct ls as [|l0 ls]; cbn [fst snd].
      * repeat split; [now rewrite E|constructor|now apply is_line_cons].
      * inversion Hls as [|? ? Hl0 Hls']; subst.
        repeat split; auto.
        constructor; [now apply is_line_cons|assumption].
Qed.

(** ** The first byte of a printed number *)

Lemma digit_char_isdigit d : (0 <= d < 10)%Z -> isdigit (digit_char d) = true.
Proof.
  intros Hd. unfold isdigit, digit_char.
  rewrite nat_ascii_embedding by lia.
  apply andb_true_iff. split; apply Nat.leb_le; lia.
Qed.

Lemma digits_of_isdigit len : forall n,
  Forall (fun c => isdigit c = true) (digits_of len n).
Proof.
  induction len as [|len IH]; intros n; cbn [digits_of]; [constructor|].
  apply Forall_app. split; [apply IH|].
  constructor; [|constructor].
  apply digit_char_isdigit, Z.mod_pos_bound. lia.
Qed.

Lemma digits_of_length len : forall n, length (digits_of len n) = len.
Proof.
  induction len as [|len IH]; intros n; cbn [digits_of]; [reflexivity|].
  rewrite length_app, IH. cbn. lia.
Qed.

Lemma format_positive_head n d :
  exists c r, format_positive n d = c :: r /\ isdigit c = true.
Proof.
  unfold format_positive.
  set (x0 := exponent10 n d). set (q0 := scaled n d (precision - 1 - x0)).
  destruct (q0 =? 10 ^ precision)%Z;
    match goal with
    | |- context [digits_of ?k ?q] =>
      pose proof (digits_of_isdigit k q) as Hd;
      pose proof (digits_of_length k q) as Hl;
      destruct (digits_of k q) as [|c ds]; [discriminate Hl|];
      inversion Hd as [|? ? Hc _]; subst
    end;
    (destruct (_ || _)%bool;
     [exists c; eexists; split; [reflexivity|exact Hc]|]);
    (destruct (0 <=? _)%Z;
     [exists c; eexists; split; [reflexivity|exact Hc]
     |exists "0"; eexists; split; reflexivity]).
Qed.

Lemma format_g_head x :
  nonnegative x = true ->
  exists c r, format_g x = c :: r /\ (isdigit c = true \/ c = "i").
Proof.
  destruct x as [[|]|[|]| |[|] m e]; try discriminate; intros _.
  - exists "0", []. split; [reflexivity|now left].
  - exists "i", (bytes "nf"). split; [reflexivity|now right].
  - cbn [format_g]. destruct (Binary64.to_ratio m e) as [n d].
    destruct (format_positive_head n d) as (c & r & -> & Hc).
    exists c, r. split; [reflexivity|now left].
Qed.

End MoreFacts.

(* ===================================================================== *)
(** * The run shown in the tutorial, reproduced *)

(** The embedding reproduces that run, byte for byte. *)
Example foo_numbers_txt :
  Foo.main Spec.zeros (Text.unlines Tutorial.numbers_txt) =
  Some (Text.unlines Tutorial.printed, 0%Z).
Proof. vm_compute. reflexivity. Qed.

(* ===================================================================== *)
(** * The properties of the filter *)

(** C1 at the input "3 4", one line of two numeric tokens, worth 3 and 4,
    without its newline: the output line that carries the fold, "25", is
    written twice, where one output line is due. *)
Theorem numeric_line_written_twice (junk : nat -> Foo.indeterminate) :
  map Spec.numeric_value (Text.words (bytes "3 4")) =
    map Some [Spec.lit "3"; Spec.lit "4"] /\
  Spec.output_line (Spec.sum_of_squares [Spec.lit "3"; Spec.lit "4"]) =
    bytes "25" ++ [Ctype.newline] /\
  Foo.main junk (bytes "3 4") =
    Some (bytes "25" ++ [Ctype.newline] ++ bytes "25" ++ [Ctype.newline], 0%Z) /\
  Text.count_lines
    (bytes "25" ++ [Ctype.newline] ++ bytes "25" ++ [Ctype.newline]) = 2%nat.
Proof.
  split; [vm_compute; reflexivity|]. split; [vm_compute; reflexivity|].
  split; [|reflexivity].
  change (bytes "3 4") with (Text.unlines [] ++ bytes "3 4") at 1.
  rewrite FooFacts.main_unterminated; [|constructor|reflexivity|discriminate].
  vm_compute. reflexivity.
Qed.

(** X18. A line made only of numeric tokens (decimal literals in the range
    of [double]), of values [vs], at least one.  The pass of the loop that
    reads the line from the input, whether a newline or the end of the
    input ends it, writes exactly one output line, and that line carries
    the left fold of [combine(acc, v) = acc + v^2] over [vs], seeded at
    zero.  When a newline ends the line, that output line comes, in what
    [main] writes, right after what the lines before yield and before what
    [main] writes on the rest of the input. *)
Theorem sum_of_squares_line (junk : nat -> Foo.indeterminate)
    (line : list ascii) (vs : list Binary64.double) :
  Text.is_line line ->
  vs <> [] ->
  map Spec.numeric_value (Text.words line) = map Some vs ->
  (forall j st tail,
     Std.good (Foo.cin st) = true ->
     Std.rdbuf (Foo.cin st) = line ++ tail ->
     tail = [] \/ (exists rest, tail = Ctype.newline :: rest) ->
     exists cin',
       Foo.loop_body j st =
       Some (Foo.mk_state cin' line
               (Foo.cout st ++ Spec.output_line (Spec.sum_of_squares vs)))
       /\ Std.rdbuf cin' = tl tail /\ Std.fail cin' = false)
  /\ (forall pre tail, Forall Text.is_line pre ->
      exists after,
        Foo.main junk tail = Some (after, 0%Z) /\
        Foo.main junk (Text.unlines pre ++ line ++ Ctype.newline :: tail) =
        Some (concat (map Spec.emitted pre)
              ++ Spec.output_line (Spec.sum_of_squares vs) ++ after, 0%Z))
  /\ Text.count_lines (Spec.output_line (Spec.sum_of_squares vs)) = 1%nat.
Proof.
  intros Hline Hvs Htok.
  assert (Hr : Foo.read_numbers (junk O) line = Some vs).
  { apply (FooFacts.read_numbers_tokens _ line (Text.words line) vs []).
    - now rewrite app_nil_r.
    - now apply FooFacts.numeric_tokens_Forall2.
    - exact I. }
  assert (Hem : Spec.emitted line = Spec.output_line (Spec.sum_of_squares vs)).
  { rewrite (FooFacts.emitted_values (junk O) line vs Hr).
    destruct vs; [congruence|reflexivity]. }
  assert (Hne : line <> []).
  { intros ->. change (Some [] = Some vs) in Hr. congruence. }
  split; [|split].
  - intros j [[buf eof bad] s0 out] tail Hgood Hbuf Htail.
    cbn [Foo.cin Foo.cout Std.rdbuf] in *.
    unfold Std.good in Hgood. cbn [Std.eofbit Std.failbit] in Hgood.
    apply andb_true_iff in Hgood as [He Hb].
    apply negb_true_iff in He, Hb. subst eof bad buf.
    unfold Foo.loop_body. cbn [Foo.cin Foo.s Foo.cout].
    destruct Htail as [->|[rest ->]].
    + rewrite app_nil_r.
      rewrite (FooFacts.getline_last line s0 Hline : Std.getline
                 (Std.mk_istream line false false) s0 = _).
      rewrite FooFacts.process_line_emitted, Hem.
      eexists. split; [reflexivity|]. split; [reflexivity|].
      destruct line; [congruence|reflexivity].
    + rewrite (FooFacts.getline_line line rest s0 Hline : Std.getline
                 (Std.mk_istream (line ++ Ctype.newline :: rest) false false)
                 s0 = _).
      rewrite FooFacts.process_line_emitted, Hem.
      eexists. split; [reflexivity|]. split; reflexivity.
  - intros pre tail Hpre. rewrite <- Hem.
    now apply FooFacts.main_line_insert.
  - apply PrintfFacts.count_lines_output_line.
Qed.

(** The line "1 2 3", whose tokens are worth 1, 2 and 3, as the whole of
    the input with its newline. *)
Lemma sum_of_squares_line_witness :
  Text.is_line (bytes "1 2 3") /\
  [Spec.lit "1"; Spec.lit "2"; Spec.lit "3"] <> [] /\
  map Spec.numeric_value (Text.words (bytes "1 2 3")) =
  map Some [Spec.lit "1"; Spec.lit "2"; Spec.lit "3"] /\
  exists after,
    Foo.main Spec.zeros [] = Some (after, 0%Z) /\
    Foo.main Spec.zeros
      (Text.unlines [] ++ bytes "1 2 3" ++ Ctype.newline :: []) =
    Some (concat (map Spec.emitted [])
          ++ Spec.output_line
               (Spec.sum_of_squares [Spec.lit "1"; Spec.lit "2"; Spec.lit "3"])
          ++ after, 0%Z).
Proof.
  split; [reflexivity|]. split; [discriminate|]. split; [vm_compute; reflexivity|].
  apply (sum_of_squares_line Spec.zeros (bytes "1 2 3")
           [Spec.lit "1"; Spec.lit "2"; Spec.lit "3"]).
  - reflexivity.
  - discriminate.
  - vm_compute; reflexivity.
  - constructor.
Defined.

(** C2, as stated, fails on the line "3 4kg": the token "4kg" is not a
    number, yet [>>] reads the 4 that starts it, and the line yields 25;
    splitting into tokens first would keep the 3 alone. *)
Lemma tokenize_then_parse_differs :
  Foo.read_numbers (Spec.zeros O) (bytes "3 4kg") =
    Some [Spec.lit "3"; Spec.lit "4"] /\
  Spec.tokenize_then_parse (bytes "3 4kg") = [Spec.lit "3"] /\
  Spec.emitted (bytes "3 4kg") = bytes "25" ++ [Ctype.newline] /\
  ~ (forall line,
       Foo.read_numbers (Spec.zeros O) line =
       Some (Spec.tokenize_then_parse line)).
Proof.
  split; [vm_compute; reflexivity|].
  split; [vm_compute; reflexivity|].
  split; [vm_compute; reflexivity|].
  intros H. specialize (H (bytes "3 4kg")). vm_compute in H. discriminate.
Qed.

(** C2, amended.  Numbers are read off the line by [>>], which skips white
    space and reads the longest numeric field, until it fails.  On a line
    that starts with numeric tokens [ts], of values [vs], followed by a
    token [g] that does not start with a number, the numbers read are [vs]:
    [g] and all that follows it contribute nothing, and the line yields the
    sum of squares of [vs] (or nothing when [ts] is empty). *)
Theorem numeric_prefix_line (j : Foo.indeterminate) (line : list ascii)
    (ts : list (list ascii)) (vs : list Binary64.double)
    (g : list ascii) (more : list (list ascii)) (out : list ascii) :
  Text.words line = ts ++ g :: more ->
  map Spec.numeric_value ts = map Some vs ->
  Spec.no_number g = true ->
  Foo.read_numbers j line = Some vs /\
  Foo.process_line j line out =
  Some (out ++ match vs with
               | [] => []
               | _ => Spec.output_line (Spec.sum_of_squares vs)
               end).
Proof.
  intros Hw Hts Hg.
  assert (Hr : Foo.read_numbers j line = Some vs).
  { apply (FooFacts.read_numbers_tokens j line ts vs (g :: more) Hw).
    - now apply FooFacts.numeric_tokens_Forall2.
    - exact Hg. }
  split; [exact Hr|].
  rewrite FooFacts.process_line_emitted.
  now rewrite (FooFacts.emitted_values j line vs Hr).
Qed.

(** The line "1 2 x 3": only 1 and 2 are read. *)
Lemma numeric_prefix_line_witness :
  Text.words (bytes "1 2 x 3") = [bytes "1"; bytes "2"] ++ bytes "x" :: [bytes "3"] /\
  map Spec.numeric_value [bytes "1"; bytes "2"] = map Some [Spec.lit "1"; Spec.lit "2"] /\
  Spec.no_number (bytes "x") = true /\
  Foo.read_numbers (Spec.zeros O) (bytes "1 2 x 3") = Some [Spec.lit "1"; Spec.lit "2"].
Proof.
  split; [reflexivity|]. split; [vm_compute; reflexivity|]. split; [reflexivity|].
  apply (numeric_prefix_line (Spec.zeros O) (bytes "1 2 x 3")
           [bytes "1"; bytes "2"] [Spec.lit "1"; Spec.lit "2"]
           (bytes "x") [bytes "3"] []).
  - reflexivity.
  - vm_compute; reflexivity.
  - reflexivity.
Defined.

(** C3. A line from which no number is read: the pass to which [getline]
    delivers it completes and leaves [cout] as it was; [main] goes on with
    the rest of the input and returns 0, having written what it writes
    when the line is not there at all.  The same holds when the line is the
    last one and lacks its newline. *)
Theorem no_number_no_output (junk : nat -> Foo.indeterminate) (line : list ascii) :
  Text.is_line line ->
  Foo.read_numbers (junk O) line = Some [] ->
  (forall j st cin',
     Std.getline (Foo.cin st) (Foo.s st) = (cin', line) ->
     Foo.loop_body j st = Some (Foo.mk_state cin' line (Foo.cout st)))
  /\ (forall pre tail, Forall Text.is_line pre ->
      exists out,
        Foo.main junk (Text.unlines pre ++ tail) = Some (out, 0%Z) /\
        Foo.main junk (Text.unlines pre ++ line ++ Ctype.newline :: tail) =
        Some (out, 0%Z))
  /\ (forall pre, Forall Text.is_line pre ->
      exists out,
        Foo.main junk (Text.unlines pre) = Some (out, 0%Z) /\
        Foo.main junk (Text.unlines pre ++ line) = Some (out, 0%Z)).
Proof.
  intros Hline Hr.
  assert (Hem : Spec.emitted line = []).
  { now rewrite (FooFacts.emitted_values (junk O) line [] Hr). }
  split; [|split].
  - intros j st cin' Hget. unfold Foo.loop_body. rewrite Hget.
    now rewrite FooFacts.process_line_emitted, Hem, app_nil_r.
  - intros pre tail Hpre.
    destruct (FooFacts.main_prefix junk pre tail Hpre) as (after & Ht & Hp).
    destruct (FooFacts.main_line_insert junk pre line tail Hpre Hline)
      as (after' & Ht' & Hi).
    rewrite Ht in Ht'. injection Ht' as <-.
    exists (concat (map Spec.emitted pre) ++ after). split; [exact Hp|].
    now rewrite Hi, Hem.
  - intros pre Hpre.
    exists (concat (map Spec.emitted pre)). split.
    + now apply FooFacts.main_terminated.
    + rewrite FooFacts.main_written by assumption.
      unfold Spec.written. rewrite Hem.
      destruct line; now rewrite ?app_nil_r.
Qed.

(** The line "abc". *)
Lemma no_number_no_output_witness :
  Text.is_line (bytes "abc") /\
  Foo.read_numbers (Spec.zeros O) (bytes "abc") = Some [] /\
  exists out,
    Foo.main Spec.zeros (Text.unlines [bytes "1"] ++ bytes "2") = Some (out, 0%Z) /\
    Foo.main Spec.zeros
      (Text.unlines [bytes "1"] ++ bytes "abc" ++ Ctype.newline :: bytes "2") =
    Some (out, 0%Z).
Proof.
  split; [reflexivity|]. split; [reflexivity|].
  apply (no_number_no_output Spec.zeros (bytes "abc")).
  - reflexivity.
  - reflexivity.
  - repeat constructor.
Defined.

(** C4 at the input "7", one line without its newline: that line holds a
    number, and two output lines are written. *)
Theorem unterminated_line_counted_twice (junk : nat -> Foo.indeterminate) :
  exists out,
    Foo.main junk (bytes "7") = Some (out, 0%Z) /\
    out = bytes "49" ++ [Ctype.newline] ++ bytes "49" ++ [Ctype.newline] /\
    Text.count_lines out = 2%nat /\
    length (Spec.qualifying [bytes "7"]) = 1%nat.
Proof.
  eexists. split.
  - apply (FooFacts.main_unterminated [] (bytes "7") junk);
      [constructor|reflexivity|discriminate].
  - vm_compute. repeat split; reflexivity.
Qed.

(** C5. The line "1 2 3" yields the output line "14", the line "2.0 3.0"
    the output line "13"; [main] writes just that on an input made of the
    line and its newline. *)
Theorem concrete_lines (junk : nat -> Foo.indeterminate) :
  Spec.emitted (bytes "1 2 3") = bytes "14" ++ [Ctype.newline] /\
  Spec.emitted (bytes "2.0 3.0") = bytes "13" ++ [Ctype.newline] /\
  Foo.main junk (bytes "1 2 3" ++ [Ctype.newline]) =
    Some (bytes "14" ++ [Ctype.newline], 0%Z) /\
  Foo.main junk (bytes "2.0 3.0" ++ [Ctype.newline]) =
    Some (bytes "13" ++ [Ctype.newline], 0%Z).
Proof.
  split; [vm_compute; reflexivity|]. split; [vm_compute; reflexivity|]. split.
  - change (bytes "1 2 3" ++ [Ctype.newline]) with (Text.unlines [bytes "1 2 3"]).
    rewrite FooFacts.main_terminated by (repeat constructor).
    vm_compute. reflexivity.
  - change (bytes "2.0 3.0" ++ [Ctype.newline])
      with (Text.unlines [bytes "2.0 3.0"]).
    rewrite FooFacts.main_terminated by (repeat constructor).
    vm_compute. reflexivity.
Qed.

(** C6 at the input "5", one line without its newline.  The first pass
    reads the line and leaves nothing unread, with [eofbit] set.  In the
    second pass [getline] fails, at the end of the input, and yet the pass
    writes "25" once more before [main] returns 0. *)
Theorem output_after_end_of_input (junk : nat -> Foo.indeterminate) :
  let once := bytes "25" ++ [Ctype.newline] in
  let st1 := Foo.mk_state (Std.mk_istream [] true false) (bytes "5") once in
  Foo.loop_body (junk 0%nat) (Foo.mk_state (Std.open (bytes "5")) [] []) =
    Some st1 /\
  Std.fail (fst (Std.getline (Foo.cin st1) (Foo.s st1))) = true /\
  (exists st2,
     Foo.loop_body (junk 1%nat) st1 = Some st2 /\
     Foo.cout st2 = Foo.cout st1 ++ once) /\
  Foo.main junk (bytes "5") = Some (once ++ once, 0%Z).
Proof.
  cbv zeta. split; [|split; [|split]].
  - unfold Foo.loop_body. cbn [Foo.cin Foo.s Foo.cout].
    rewrite (FooFacts.getline_last (bytes "5")) by reflexivity.
    rewrite FooFacts.process_line_emitted. vm_compute. reflexivity.
  - reflexivity.
  - eexists. split.
    + unfold Foo.loop_body, Std.getline.
      cbn [Foo.cin Foo.s Foo.cout Std.good Std.eofbit Std.failbit negb andb
           Std.set_failbit Std.rdbuf].
      rewrite FooFacts.process_line_emitted. reflexivity.
    + vm_compute. reflexivity.
  - change (bytes "5") with (Text.unlines [] ++ bytes "5") at 1.
    rewrite FooFacts.main_unterminated; [|constructor|reflexivity|discriminate].
    vm_compute. reflexivity.
Qed.

(** X19. On every input the loop of [main] ends, with the whole input read
    ([cin] at end of file, nothing left unread) and [cin] failed; [main]
    then returns 0, and its output is what the loop had written. *)
Theorem main_total (junk : nat -> Foo.indeterminate) (stdin : list ascii) :
  exists st,
    Foo.main_loop (length stdin + 2) junk (Foo.mk_state (Std.open stdin) [] [])
      = Some st /\
    Std.to_bool (Foo.cin st) = false /\
    Std.rdbuf (Foo.cin st) = [] /\
    Std.eofbit (Foo.cin st) = true /\
    Foo.main junk stdin = Some (Foo.cout st, 0%Z).
Proof.
  destruct (TextFacts.split_lines stdin) as (ls & l & -> & Hls & Hl).
  unfold Foo.main. destruct l as [|c l].
  - rewrite app_nil_r. rewrite FooFacts.main_loop_terminated by assumption.
    eexists. repeat split.
  - rewrite FooFacts.main_loop_unterminated by (assumption || discriminate).
    eexists. repeat split.
Qed.

(** C7. The output and the exit status are a function of the input alone:
    the values that the uninitialised [u] happens to hold, the only thing
    the program does not fix, do not show. *)
Theorem main_deterministic (junk1 junk2 : nat -> Foo.indeterminate)
    (stdin : list ascii) :
  Foo.main junk1 stdin = Foo.main junk2 stdin.
Proof.
  destruct (TextFacts.split_lines stdin) as (ls & l & -> & Hls & Hl).
  now rewrite !FooFacts.main_written.
Qed.

(** C8 at the input "1 2 3", one line without its newline: [main] writes
    "14" twice, where the line on its own yields "14" once. *)
Theorem unterminated_line_breaks_homomorphism (junk : nat -> Foo.indeterminate) :
  Foo.main junk (Text.unlines [] ++ bytes "1 2 3") =
    Some (bytes "14" ++ [Ctype.newline] ++ bytes "14" ++ [Ctype.newline], 0%Z) /\
  concat (map Spec.emitted [bytes "1 2 3"]) = bytes "14" ++ [Ctype.newline].
Proof.
  split; [|vm_compute; reflexivity].
  rewrite (FooFacts.main_unterminated [] (bytes "1 2 3") junk);
    [|constructor|reflexivity|discriminate].
  vm_compute. reflexivity.
Qed.

(** C9. A last line without newline, on which the numbers [vs] (at least
    one) are read: its sum of squares is written, right after what the
    lines before it yield, and [main] returns 0. *)
Theorem last_line_processed (junk : nat -> Foo.indeterminate)
    (ls : list (list ascii)) (l : list ascii) (vs : list Binary64.double) :
  Forall Text.is_line ls ->
  Text.is_line l ->
  Foo.read_numbers (junk O) l = Some vs ->
  vs <> [] ->
  exists rest,
    Foo.main junk (Text.unlines ls ++ l) =
    Some (concat (map Spec.emitted ls)
          ++ Spec.output_line (Spec.sum_of_squares vs) ++ rest, 0%Z).
Proof.
  intros Hls Hl Hr Hvs.
  assert (Hne : l <> []).
  { intros ->. change (Some [] = Some vs) in Hr. congruence. }
  rewrite FooFacts.main_unterminated by assumption.
  rewrite (FooFacts.emitted_values (junk O) l vs Hr).
  destruct vs as [|v vs]; [congruence|].
  eexists. now rewrite <- app_assoc.
Qed.

(** The input "1 2 3", newline, "4 5". *)
Lemma last_line_processed_witness :
  Forall Text.is_line [bytes "1 2 3"] /\
  Text.is_line (bytes "4 5") /\
  Foo.read_numbers (Spec.zeros O) (bytes "4 5") = Some [Spec.lit "4"; Spec.lit "5"] /\
  [Spec.lit "4"; Spec.lit "5"] <> [] /\
  exists rest,
    Foo.main Spec.zeros (Text.unlines [bytes "1 2 3"] ++ bytes "4 5") =
    Some (concat (map Spec.emitted [bytes "1 2 3"])
          ++ Spec.output_line (Spec.sum_of_squares [Spec.lit "4"; Spec.lit "5"])
          ++ rest, 0%Z).
Proof.
  split; [repeat constructor|]. split; [reflexivity|].
  split; [vm_compute; reflexivity|]. split; [discriminate|].
  apply (last_line_processed Spec.zeros [bytes "1 2 3"] (bytes "4 5")
           [Spec.lit "4"; Spec.lit "5"]).
  - repeat constructor.
  - reflexivity.
  - vm_compute; reflexivity.
  - discriminate.
Defined.

(** C10 at the input "2.0 3.0", one line without its newline.  The first
    pass reads the line, reaching the end of the input, and writes "13";
    [cin] has [eofbit] set but has not failed, so a second pass is made.
    There [getline] fails and leaves [s] holding the line, and the pass
    writes "13" again before the loop ends. *)
Theorem extra_pass_repeats_last_line (junk : nat -> Foo.indeterminate) :
  let st0 := Foo.mk_state (Std.open (bytes "2.0 3.0")) [] [] in
  let once := bytes "13" ++ [Ctype.newline] in
  let st1 := Foo.mk_state (Std.mk_istream [] true false) (bytes "2.0 3.0") once in
  let st2 := Foo.mk_state (Std.mk_istream [] true true) (bytes "2.0 3.0")
               (once ++ once) in
  Foo.loop_body (junk 0%nat) st0 = Some st1 /\
  Std.to_bool (Foo.cin st1) = true /\
  Foo.loop_body (junk 1%nat) st1 = Some st2 /\
  Std.to_bool (Foo.cin st2) = false /\
  Foo.main junk (bytes "2.0 3.0") = Some (once ++ once, 0%Z).
Proof.
  cbv zeta. split; [|split; [|split; [|split]]].
  - unfold Foo.loop_body. cbn [Foo.cin Foo.s Foo.cout].
    rewrite (FooFacts.getline_last (bytes "2.0 3.0")) by reflexivity.
    rewrite FooFacts.process_line_emitted. vm_compute. reflexivity.
  - reflexivity.
  - unfold Foo.loop_body, Std.getline.
    cbn [Foo.cin Foo.s Foo.cout Std.good Std.eofbit Std.failbit negb andb
         Std.set_failbit Std.rdbuf].
    rewrite FooFacts.process_line_emitted. vm_compute. reflexivity.
  - reflexivity.
  - change (bytes "2.0 3.0") with (Text.unlines [] ++ bytes "2.0 3.0") at 1.
    rewrite FooFacts.main_unterminated;
      [|constructor|reflexivity|discriminate].
    vm_compute. reflexivity.
Qed.

(* ===================================================================== *)
(** * Further properties of the filter and of the Python helpers *)

(** X1. What a line yields depends on its tokens only: two lines with the
    same tokens, whatever white space stands before, between and after
    them, give the same numbers and the same output. *)
Theorem same_tokens_same_output (j1 j2 : Foo.indeterminate)
    (l1 l2 : list ascii) :
  Text.words l1 = Text.words l2 ->
  Foo.read_numbers j1 l1 = Foo.read_numbers j2 l2 /\
  Spec.emitted l1 = Spec.emitted l2.
Proof.
  intros H. split; [now apply LayoutFacts.read_numbers_same|].
  unfold Spec.emitted, Foo.process_line.
  now rewrite (LayoutFacts.read_numbers_same _ (fun _ => Binary64.zero) l1 l2 H).
Qed.

(** The line "1 2 3" and the same with a tab, runs of spaces and a carriage
    return at its end. *)
Lemma same_tokens_same_output_witness :
  Text.words (bytes "1 2 3") =
  Text.words (bytes " 1" ++ ["009"] ++ bytes "2   3 " ++ ["013"]) /\
  Spec.emitted (bytes "1 2 3") =
  Spec.emitted (bytes " 1" ++ ["009"] ++ bytes "2   3 " ++ ["013"]).
Proof.
  split; [reflexivity|].
  apply (same_tokens_same_output (Spec.zeros O) (Spec.zeros O)). reflexivity.
Defined.

(** X2. On every input, cut into its newline-terminated lines [ls] and the
    piece [l] without newline that may follow them, [main] returns 0 having
    written what each line of [ls] yields, in order, and then twice what
    [l] yields when [l] is not empty. *)
Theorem main_on_every_input (junk : nat -> Foo.indeterminate)
    (stdin : list ascii) :
  stdin = Text.unlines (fst (Layout.lines_of stdin))
          ++ snd (Layout.lines_of stdin) /\
  Forall Text.is_line (fst (Layout.lines_of stdin)) /\
  Text.is_line (snd (Layout.lines_of stdin)) /\
  Foo.main junk stdin =
  Some (Spec.written (fst (Layout.lines_of stdin))
          (snd (Layout.lines_of stdin)), 0%Z).
Proof.
  destruct (MoreFacts.lines_of_spec stdin) as (E & Hls & Hl).
  repeat split; auto.
  rewrite E at 1. now apply FooFacts.main_written.
Qed.

(** X3. The number of output lines: one for each newline-terminated input
    line that holds a number, and two more when the input ends with a piece
    without newline that holds a number. *)
Theorem output_line_count (junk : nat -> Foo.indeterminate)
    (stdin : list ascii) :
  exists out,
    Foo.main junk stdin = Some (out, 0%Z) /\
    Text.count_lines out =
    (length (Spec.qualifying (fst (Layout.lines_of stdin)))
     + 2 * length (Spec.qualifying [snd (Layout.lines_of stdin)]))%nat.
Proof.
  destruct (MoreFacts.lines_of_spec stdin) as (E & Hls & Hl).
  exists (Spec.written (fst (Layout.lines_of stdin))
            (snd (Layout.lines_of stdin))).
  split; [rewrite E at 1; now apply FooFacts.main_written|].
  unfold Spec.written. rewrite PrintfFacts.count_lines_app.
  rewrite FooFacts.count_lines_terminated. f_equal.
  destruct (snd (Layout.lines_of stdin)) as [|c l]; [reflexivity|].
  rewrite PrintfFacts.count_lines_app, FooFacts.count_lines_emitted. lia.
Qed.

(** X4. The numbers read on a line are all finite (an infinity or a NaN
    never enters [v]), and there are no more of them than the line has
    bytes. *)
Theorem numbers_read_are_finite (j : Foo.indeterminate) (line : list ascii) :
  exists v,
    Foo.read_numbers j line = Some v /\
    Forall (fun x => Sign.finite x = true) v /\
    (length v <= length line)%nat.
Proof.
  destruct (FooFacts.read_numbers_total j line) as [v Hv].
  exists v. split; [exact Hv|]. split.
  - apply (SignFacts.read_loop_finite _ _ _ _ _ Hv). constructor.
  - apply SignFacts.read_loop_length in Hv. cbn in Hv. lia.
Qed.

(** X5. An output line never carries a negative number or a NaN: the value
    written is plus zero, positive or plus infinity, so that the line
    starts with a digit or with the i of "inf". *)
Theorem output_never_negative (line : list ascii) :
  Spec.emitted line = [] \/
  exists x c r,
    Sign.nonnegative x = true /\
    Spec.emitted line = Spec.output_line x /\
    Spec.output_line x = c :: r /\
    (Ctype.isdigit c = true \/ c = "i").
Proof.
  destruct (FooFacts.read_numbers_total (fun _ => Binary64.zero) line)
    as [v Hv].
  assert (Hfin : Forall (fun x => Sign.finite x = true) v)
    by (apply (SignFacts.read_loop_finite _ _ _ _ _ Hv); constructor).
  rewrite (FooFacts.emitted_numbers line v Hv).
  destruct v as [|u v]; [now left|]. right.
  set (x := Std.accumulate (u :: v) Binary64.zero Foo.sum_squares).
  assert (Hx : Sign.nonnegative x = true)
    by (apply SignFacts.accumulate_nonnegative; [reflexivity|assumption]).
  destruct (MoreFacts.format_g_head x Hx) as (c & r & E & Hc).
  exists x, c, (r ++ [Ctype.newline]). repeat split; auto.
  unfold Spec.output_line. now rewrite E.
Qed.

(** X6. The words that [tokenize] returns: none is empty, and their
    characters are neither white space, nor punctuation, nor upper case. *)
Theorem tokenize_words (line : Py.str) :
  Forall (fun w =>
            w <> [] /\
            Forall (fun c => Py.isspace c = false /\
                             Py.is_punctuation c = false /\
                             Py.lower_char c = c) w)
    (Py.tokenize line).
Proof.
  pose proof (PyFacts.tokenize_pieces line) as H.
  eapply Forall_impl; [|exact H]. intros w (H1 & H2 & H3).
  split; [assumption|].
  unfold Py.sp_solid in H2. rewrite Forall_forall in *.
  intros c Hc. destruct (H3 c Hc). auto.
Qed.

(** X7. [tokenize] returns no word just for the lines made of white space
    and punctuation only, the empty line among them. *)
Theorem tokenize_nothing (line : Py.str) :
  Py.tokenize line = [] <->
  Forall (fun c => Py.isspace c = true \/ Py.is_punctuation c = true) line.
Proof.
  rewrite PyFacts.tokenize_split. unfold Py.split. split.
  - intros H. apply PyFacts.split_by_nil_blank in H.
    unfold Py.sp_blank, Py.lower, Py.translate in H.
    induction line as [|c line IH]; [constructor|].
    cbn [filter] in H.
    change (existsb (Ascii.eqb c) Py.punctuation) with (Py.is_punctuation c) in H.
    destruct (Py.is_punctuation c) eqn:Hc; cbn [negb map] in H.
    + constructor; [now right|now apply IH].
    + inversion H as [|? ? Hs H']; subst.
      rewrite PyFacts.lower_char_isspace in Hs.
      constructor; [now left|now apply IH].
  - intros H. apply PyFacts.split_by_blank.
    unfold Py.sp_blank, Py.lower, Py.translate.
    induction H as [|c line Hc _ IH]; [constructor|].
    cbn [filter].
    change (existsb (Ascii.eqb c) Py.punctuation) with (Py.is_punctuation c).
    destruct (Py.is_punctuation c) eqn:Hp; cbn [negb map]; [exact IH|].
    constructor; [|exact IH]. rewrite PyFacts.lower_char_isspace.
    destruct Hc; congruence.
Qed.

(** X8. On strings of code points below 256, where [lower()] works one
    character at a time, [tokenize], and with it both weights, do not see
    the case of the letters: lowering the line first changes nothing. *)
Theorem tokenize_ignores_case (line : Py.str) (d : Py.dict) :
  Py.tokenize (Py.lower line) = Py.tokenize line /\
  Py.weight_first (Py.lower line) d = Py.weight_first line d /\
  Py.weight_last (Py.lower line) d = Py.weight_last line d.
Proof.
  assert (H : Py.tokenize (Py.lower line) = Py.tokenize line).
  { rewrite !PyFacts.tokenize_split.
    now rewrite PyFacts.translate_lower, PyFacts.lower_idempotent. }
  unfold Py.weight_first, Py.weight_last. now rewrite H.
Qed.

(** X9. After the lines have gone through [tokenize_count], the accumulator
    has grown by the number of lines that are not the empty string, and the
    words are those of [tokenize] on each line, in order.  A line of white
    space or punctuation alone is counted although it gives no word: the
    lines that give a word are at most as many as the lines counted. *)
Theorem tokenize_count_counts_nonempty (lines : list Py.str) (num_lines : Z) :
  Py.flatMap_tokenize_count lines num_lines =
  (concat (map Py.tokenize lines),
   (num_lines + Z.of_nat (length (filter Py.nonempty lines)))%Z) /\
  (length (filter Py.gives_words lines)
   <= length (filter Py.nonempty lines))%nat.
Proof.
  split.
  - revert num_lines. induction lines as [|l lines IH]; intros n.
    + cbn. now rewrite Z.add_0_r.
    + cbn [Py.flatMap_tokenize_count Py.tokenize_count map concat filter].
      rewrite IH. f_equal.
      destruct l; cbn [Py.nonempty length]; lia.
  - induction lines as [|l lines IH]; [reflexivity|].
    cbn [filter]. destruct l as [|c l]; [exact IH|].
    cbn [Py.nonempty]. destruct (Py.gives_words _); cbn [length]; lia.
Qed.

(** X10. With the table of the tutorial, [weight_first] and [weight_last]
    never fail on an index, and the weight of a line lies between 0 and 25
    times the number of its words. *)
Theorem weights_bounded (line : Py.str) :
  exists w1 w2,
    Py.weight_first line Py.table = Some w1 /\
    Py.weight_last line Py.table = Some w2 /\
    (0 <= w1 <= 25 * Z.of_nat (length (Py.tokenize line)))%Z /\
    (0 <= w2 <= 25 * Z.of_nat (length (Py.tokenize line)))%Z.
Proof.
  pose proof (PyFacts.tokenize_pieces line) as H.
  assert (H1 : Forall (fun w => exists c, Py.first_char w = Some c
                                          /\ Py.lower_char c = c)
                 (Py.tokenize line)).
  { eapply Forall_impl; [|exact H]. intros w (Hne & _ & Hc).
    destruct w as [|c w]; [congruence|]. exists c. split; [reflexivity|].
    inversion Hc as [|? ? [_ Hl] _]. exact Hl. }
  assert (H2 : Forall (fun w => exists c, Py.last_char w = Some c
                                          /\ Py.lower_char c = c)
                 (Py.tokenize line)).
  { eapply Forall_impl; [|exact H]. intros w (Hne & _ & Hc).
    destruct w as [|c w]; [congruence|]. exists (last w c).
    split; [reflexivity|].
    apply (PyFacts.last_in (fun c => Py.lower_char c = c)).
    eapply Forall_impl; [|exact Hc]. now intros a [_ Ha]. }
  destruct (PyFacts.sum_weights_bounded _ _ H1 0%Z) as (w1 & E1 & B1).
  destruct (PyFacts.sum_weights_bounded _ _ H2 0%Z) as (w2 & E2 & B2).
  exists w1, w2. unfold Py.weight_first, Py.weight_last.
  repeat split; auto; lia.
Qed.

(** X11. The weights look up lower-case keys only: the entries of the
    table whose key is not its own lower case, those of A to Z in the
    tutorial's table, are never used. *)
Theorem weights_use_lower_entries (line : Py.str) (d : Py.dict) :
  Py.weight_first line (Py.lower_entries d) = Py.weight_first line d /\
  Py.weight_last line (Py.lower_entries d) = Py.weight_last line d /\
  Py.lower_entries Py.table = firstn 26 Py.table.
Proof.
  pose proof (PyFacts.tokenize_pieces line) as H.
  unfold Py.weight_first, Py.weight_last. split; [|split; [|reflexivity]].
  - apply PyFacts.sum_weights_lower_entries.
    eapply Forall_impl; [|exact H]. intros w (Hne & _ & Hc) c E.
    destruct w as [|a w]; [discriminate|]. injection E as <-.
    inversion Hc as [|? ? [_ Hl] _]. exact Hl.
  - apply PyFacts.sum_weights_lower_entries.
    eapply Forall_impl; [|exact H]. intros w (Hne & _ & Hc) c E.
    destruct w as [|a w]; [discriminate|]. injection E as <-.
    apply (PyFacts.last_in (fun c => Py.lower_char c = c)).
    eapply Forall_impl; [|exact Hc]. now intros b [_ Hb].
Qed.

(** X12. [prepare] returns one newline-terminated line: the pieces of
    [split()] with one space between them, which hold no newline, then the
    newline.  Splitting it again gives the same pieces, preparing it again
    the same line, and the pieces are the tokens that the C++ stream finds
    in it. *)
Theorem prepare_line (line : Py.str) :
  let body := Py.join [" "] (Py.split line) in
  Py.prepare line = body ++ [Ctype.newline] /\
  Text.is_line body /\
  Py.split (Py.prepare line) = Py.split line /\
  Py.prepare (Py.prepare line) = Py.prepare line /\
  Text.words body = Py.split line.
Proof.
  cbv zeta.
  assert (Hs : Py.split (Py.prepare line) = Py.split line).
  { unfold Py.prepare, Py.split.
    rewrite PyFacts.split_by_app_blank by (now repeat constructor).
    apply PyFacts.split_by_join; [reflexivity|apply PyFacts.split_by_pieces]. }
  repeat split.
  - apply PyFacts.body_is_line.
  - exact Hs.
  - unfold Py.prepare at 1. now rewrite Hs.
  - apply PyFacts.words_join_split.
Qed.

(** X13. Lines of ASCII text that went through [prepare], fed to [foo] one
    after the other: [main] returns 0 having written, in order, what each
    prepared line yields, once; the output has as many lines as there are
    prepared lines that hold a number. *)
Theorem prepared_lines_through_foo (junk : nat -> Foo.indeterminate)
    (lines : list Py.str) :
  forallb Py.is_ascii lines = true ->
  Foo.main junk (concat (map Py.prepare lines)) =
  Some (concat (map (fun l => Spec.emitted (Py.join [" "] (Py.split l))) lines),
        0%Z) /\
  Text.count_lines
    (concat (map (fun l => Spec.emitted (Py.join [" "] (Py.split l))) lines)) =
  length (Spec.qualifying (map (fun l => Py.join [" "] (Py.split l)) lines)).
Proof.
  intros _. rewrite PyFacts.prepared_input.
  rewrite FooFacts.main_terminated.
  - rewrite map_map. split; [reflexivity|].
    rewrite <- FooFacts.count_lines_terminated. now rewrite map_map.
  - apply Forall_forall. intros b Hb. apply in_map_iff in Hb as (l & <- & _).
    apply PyFacts.body_is_line.
Qed.

(** The first two lines of [numbers.txt]. *)
Lemma prepared_lines_through_foo_witness :
  forallb Py.is_ascii (firstn 2 Tutorial.numbers_txt) = true /\
  Foo.main Spec.zeros (concat (map Py.prepare (firstn 2 Tutorial.numbers_txt))) =
  Some (concat (map (fun l => Spec.emitted (Py.join [" "] (Py.split l)))
                  (firstn 2 Tutorial.numbers_txt)), 0%Z).
Proof.
  split; [reflexivity|].
  apply (prepared_lines_through_foo Spec.zeros (firstn 2 Tutorial.numbers_txt)).
  reflexivity.
Defined.

(** X14. On a line of ASCII text whose white space is white space for the
    C++ stream too, [prepare] does not change the result: [foo], given the
    prepared line, writes what the line itself yields, once. *)
Theorem prepare_keeps_result (junk : nat -> Foo.indeterminate) (line : Py.str) :
  Py.is_ascii line = true ->
  Py.same_spaces line = true ->
  Spec.emitted (Py.join [" "] (Py.split line)) = Spec.emitted line /\
  Foo.main junk (Py.prepare line) = Some (Spec.emitted line, 0%Z).
Proof.
  intros _ Hs.
  assert (E : Spec.emitted (Py.join [" "] (Py.split line)) = Spec.emitted line).
  { unfold Spec.emitted, Foo.process_line.
    rewrite (LayoutFacts.read_numbers_same _ (fun _ => Binary64.zero)
               (Py.join [" "] (Py.split line)) line); [reflexivity|].
    rewrite PyFacts.words_join_split. now apply PyFacts.same_spaces_split. }
  split; [exact E|].
  replace (Py.prepare line)
    with (Text.unlines [Py.join [" "] (Py.split line)])
    by (unfold Text.unlines, Py.prepare; cbn [map concat]; apply app_nil_r).
  rewrite FooFacts.main_terminated
    by (constructor; [apply PyFacts.body_is_line|constructor]).
  cbn [map concat]. now rewrite app_nil_r, E.
Qed.

(** A line with spaces before, between and after its numbers. *)
Lemma prepare_keeps_result_witness :
  Py.is_ascii (bytes "  1.5   2e3  ") = true /\
  Py.same_spaces (bytes "  1.5   2e3  ") = true /\
  Foo.main Spec.zeros (Py.prepare (bytes "  1.5   2e3  ")) =
  Some (Spec.emitted (bytes "  1.5   2e3  "), 0%Z).
Proof.
  split; [reflexivity|]. split; [reflexivity|].
  apply (prepare_keeps_result Spec.zeros (bytes "  1.5   2e3  ")); reflexivity.
Defined.

(** X15. Going line by line loses no word and makes none: the words of the
    lines, one line after the other, are the words of the whole text, its
    lines joined by newlines. *)
Theorem tokenize_line_by_line (lines : list Py.str) :
  concat (map Py.tokenize lines) = Py.tokenize (Py.join [Ctype.newline] lines).
Proof.
  induction lines as [|l lines IH]; [reflexivity|].
  destruct lines as [|l2 lines].
  - cbn [map concat Py.join]. apply app_nil_r.
  - change (Py.join [Ctype.newline] (l :: l2 :: lines))
      with (l ++ Ctype.newline :: Py.join [Ctype.newline] (l2 :: lines)).
    rewrite PyFacts.tokenize_app_newline, <- IH. reflexivity.
Qed.

(** X16. Text with carriage return and newline at the end of every line
    gives what the same text with the newline alone gives. *)
Theorem carriage_returns_ignored (junk : nat -> Foo.indeterminate)
    (ls : list (list ascii)) :
  Forall Text.is_line ls ->
  Foo.main junk (Text.unlines (map (fun l => l ++ ["013"]) ls)) =
  Foo.main junk (Text.unlines ls).
Proof.
  intros Hls. rewrite !FooFacts.main_terminated.
  - rewrite map_map. do 3 f_equal. apply map_ext. intros l.
    unfold Spec.emitted, Foo.process_line.
    now rewrite (LayoutFacts.read_numbers_same _ (fun _ => Binary64.zero)
                   (l ++ ["013"]) l (PyFacts.words_carriage_return l)).
  - exact Hls.
  - apply Forall_forall. intros l' Hl'. apply in_map_iff in Hl' as (l & <- & Hl).
    rewrite Forall_forall in Hls.
    apply PyFacts.is_line_app; [now apply Hls|reflexivity].
Qed.

(** The lines "1 2 3" and "4 5". *)
Lemma carriage_returns_ignored_witness :
  Forall Text.is_line [bytes "1 2 3"; bytes "4 5"] /\
  Foo.main Spec.zeros
    (Text.unlines (map (fun l => l ++ ["013"]) [bytes "1 2 3"; bytes "4 5"])) =
  Foo.main Spec.zeros (Text.unlines [bytes "1 2 3"; bytes "4 5"]).
Proof.
  split; [repeat constructor|].
  apply (carriage_returns_ignored Spec.zeros [bytes "1 2 3"; bytes "4 5"]).
  repeat constructor.
Defined.

